(** * shell-escape-arg: a shallow embedding of [src/ts/index.ts]

    The module exports one function, [shellEscapeArg], which formats a
    JavaScript string as a POSIX shell argument literal.  The embedding
    follows the TypeScript source function by function; the JavaScript
    built-ins the source calls ([typeof], [String.prototype.includes],
    [startsWith], [replaceAll], [charCodeAt], [RegExp.prototype.test]) are
    modelled in [Js] at the generality the source uses them. *)

From Stdlib Require Import ZArith List Bool String Ascii Lia.
Import ListNotations.
Local Open Scope Z_scope.

(* ================================================================== *)
(** * The JavaScript runtime, as far as the source relies on it        *)
(* ================================================================== *)
Module Js.

(** A JavaScript string is a finite sequence of UTF-16 code units. *)
Definition jsstring := list Z.

(** Run-time values.  The TypeScript signature promises a string, but the
    source checks the run-time tag itself, so other values are kept. *)
Inductive value : Type :=
| VUndefined
| VNull
| VBoolean (b : bool)
| VNumber (n : Z)
| VString (s : jsstring)
| VObject.

(** The [typeof] operator. *)
Definition typeof (v : value) : string :=
  match v with
  | VUndefined => "undefined"
  | VNull => "object"
  | VBoolean _ => "boolean"
  | VNumber _ => "number"
  | VString _ => "string"
  | VObject => "object"
  end.

(** An ASCII literal of the source text, as code units. *)
Definition lit (s : string) : jsstring :=
  map (fun a => Z.of_N (N_of_ascii a)) (list_ascii_of_string s).

(** Completion of a call: a returned value or a thrown error object, of
    which the constructor and the [message] are kept. *)
Inductive ErrorClass : Type := TypeError | Error.

Inductive completion (A : Type) : Type :=
| Return (a : A)
| Throw (cls : ErrorClass) (message : string).
Arguments Return {A} a.
Arguments Throw {A} cls message.

(** [p] occurs in [s] at index 0. *)
Fixpoint isPrefix (p s : jsstring) : bool :=
  match p, s with
  | [], _ => true
  | _ :: _, [] => false
  | a :: p', b :: s' => (a =? b) && isPrefix p' s'
  end.

(** [s.startsWith(p)] *)
Definition startsWith (s p : jsstring) : bool := isPrefix p s.

(** [s.includes(p)]: [p] occurs at some index of [s]. *)
Fixpoint includes (s p : jsstring) : bool :=
  match s with
  | [] => isPrefix p []
  | _ :: t => isPrefix p s || includes t p
  end.

(** [s.charCodeAt(i)]; [None] stands for NaN (index out of range). *)
Definition charCodeAt (s : jsstring) (i : nat) : option Z := nth_error s i.

(** [s.replaceAll(pat, rep)] for a string pattern and a replacement that
    holds no dollar sign (so it is inserted as it is): the occurrences of
    [pat] are found left to right, each search resuming after the end of
    the previous match.  [skip] counts the code units of the current match
    that are still to be passed over. *)
Fixpoint replaceAllFrom (pat rep : jsstring) (skip : nat) (s : jsstring)
  : jsstring :=
  match s with
  | [] => []
  | c :: t =>
      match skip with
      | S k => replaceAllFrom pat rep k t
      | O =>
          if isPrefix pat s
          then rep ++ replaceAllFrom pat rep (List.length pat - 1) t
          else c :: replaceAllFrom pat rep 0 t
      end
  end.

Definition replaceAll (s pat rep : jsstring) : jsstring :=
  match pat with
  | [] => rep ++ flat_map (fun c => c :: rep) s
  | _ :: _ => replaceAllFrom pat rep 0 s
  end.

(** Surrogate code units and the code point of a surrogate pair. *)
Definition isLeadSurrogate (u : Z) : bool := (0xD800 <=? u) && (u <=? 0xDBFF).
Definition isTrailSurrogate (u : Z) : bool := (0xDC00 <=? u) && (u <=? 0xDFFF).
Definition pairCodePoint (lead trail : Z) : Z :=
  0x10000 + (lead - 0xD800) * 0x400 + (trail - 0xDC00).

(** The code points of a string, as a regular expression with the [u] flag
    reads them: a lead surrogate followed by a trail surrogate is one code
    point, every other code unit stands for itself. *)
Fixpoint codePoints (s : jsstring) : list Z :=
  match s with
  | [] => []
  | u :: t =>
      match t with
      | l :: t' =>
          if isLeadSurrogate u && isTrailSurrogate l
          then pairCodePoint u l :: codePoints t'
          else u :: codePoints t
      | [] => [u]
      end
  end.

(** [/[cls]/.test(s)] and [/[cls]/u.test(s)] for a pattern that is a single
    character class: some character of the string is in the class.  Without
    the [u] flag the characters are the code units, with it the code
    points. *)
Definition regexClassTest (cls : Z -> bool) (unicode : bool) (s : jsstring)
  : bool :=
  existsb cls (if unicode then codePoints s else s).

(** Modelled from the spec: the runtime's table of the Unicode property
    White_Space, which [\p{White_Space}] consults and which is not part of
    the repository.  The code points are those the specification and the
    source's documentation list. *)
Definition isWhiteSpace (c : Z) : bool :=
  ((0x0009 <=? c) && (c <=? 0x000D))
  || (c =? 0x0020) || (c =? 0x0085) || (c =? 0x00A0) || (c =? 0x1680)
  || ((0x2000 <=? c) && (c <=? 0x200A))
  || (c =? 0x2028) || (c =? 0x2029) || (c =? 0x202F) || (c =? 0x205F)
  || (c =? 0x3000).

End Js.

(* ================================================================== *)
(** * [src/ts/index.ts]                                                *)
(* ================================================================== *)
Module ShellEscapeArg.
Import Js.

(** Code units the source names. *)
Definition NUL : Z := 0x00.
Definition QUOTE : Z := 0x27.      (* single quote *)
Definition BACKSLASH : Z := 0x5C.
Definition TILDE : Z := 0x7E.

(** [function startsWithTilde(s) { return s.startsWith("~"); }] *)
Definition startsWithTilde (s : jsstring) : bool := startsWith s (lit "~").

(** [function hasUnicodeWhitespace(s) { return /[\p{White_Space}]/u.test(s); }] *)
Definition hasUnicodeWhitespace (s : jsstring) : bool :=
  regexClassTest isWhiteSpace true s.

(** The loop of [hasAsciiControlChars]: [n] iterations are left and [i] is
    the loop index.  A NaN char code fails both comparisons. *)
Fixpoint hasAsciiControlCharsLoop (s : jsstring) (n : nat) (i : nat) : bool :=
  match n with
  | O => false
  | S n' =>
      match charCodeAt s i with
      | Some code =>
          if ((0x01 <=? code) && (code <=? 0x1f)) || (code =? 0x7f)
          then true
          else hasAsciiControlCharsLoop s n' (S i)
      | None => hasAsciiControlCharsLoop s n' (S i)
      end
  end.

(** [for (let i = 0; i < s.length; i++) { ... } return false;] *)
Definition hasAsciiControlChars (s : jsstring) : bool :=
  hasAsciiControlCharsLoop s (List.length s) 0.

(** The character class of the pattern in [hasShellMetaChars], in the order
    the source writes it: single quote, double quote, backslash, dollar,
    backtick, pipe, ampersand, semicolon, less-than, greater-than, the two
    parentheses, asterisk, question mark, the two brackets, the two braces,
    exclamation mark, hash. *)
Definition shellMetaChars : list Z :=
  [0x27; 0x22; 0x5C; 0x24; 0x60; 0x7C; 0x26; 0x3B; 0x3C; 0x3E;
   0x28; 0x29; 0x2A; 0x3F; 0x5B; 0x5D; 0x7B; 0x7D; 0x21; 0x23].

Definition isShellMetaChar (c : Z) : bool := existsb (Z.eqb c) shellMetaChars.

(** [function hasShellMetaChars(s) { return /[...]/.test(s); }] *)
Definition hasShellMetaChars (s : jsstring) : bool :=
  regexClassTest isShellMetaChar false s.

(** [function needsQuoting(s)] *)
Definition needsQuoting (s : jsstring) : bool :=
  (List.length s =? 0)%nat
  || startsWithTilde s
  || hasUnicodeWhitespace s
  || hasAsciiControlChars s
  || hasShellMetaChars s.

(** [export default function shellEscapeArg(arg: string): string] *)
Definition shellEscapeArg (arg : value) : completion jsstring :=
  if negb (String.eqb (typeof arg) "string") then
    Throw TypeError "escape: arg must be a string"
  else
    match arg with
    | VString s =>
        (* POSIX process arguments cannot contain NUL. *)
        if includes s [NUL] then
          Throw Error "escape: arg must not include NUL (\u0000)"
        (* Unquoted fast-path when safe. *)
        else if negb (needsQuoting s) then
          Return s
        (* POSIX sh single-quote escaping *)
        else
          Return ([QUOTE]
                    ++ replaceAll s [QUOTE] [QUOTE; BACKSLASH; QUOTE; QUOTE]
                    ++ [QUOTE])
    | _ =>
        (* not reached: only a string has the tag "string" *)
        Throw TypeError "escape: arg must be a string"
    end.

End ShellEscapeArg.

(* ================================================================== *)
(** * The reader the round-trip property refers to                     *)
(* ================================================================== *)
Module Posix.
Import Js.

(** Where the reader stands in a word: outside quotes, right after an
    unquoted backslash, or between single quotes. *)
Inductive mode : Type := Unquoted | Escaped | SingleQuoted.

(** Quote removal on one shell word (POSIX Shell Command Language, 2.2).
    Between single quotes every character is literal up to the closing
    quote.  Outside quotes a single quote opens a quoted part, a backslash
    keeps the literal value of the character after it (a backslash and a
    newline together are a line continuation and vanish), and any other
    character is literal.  The word is ill-formed ([None]) when it ends
    inside quotes or on a backslash. *)
Fixpoint unquote (m : mode) (w : jsstring) : option jsstring :=
  match w with
  | [] =>
      match m with
      | Unquoted => Some []
      | Escaped | SingleQuoted => None
      end
  | c :: t =>
      match m with
      | Unquoted =>
          if c =? 0x27 then unquote SingleQuoted t
          else if c =? 0x5C then unquote Escaped t
          else option_map (cons c) (unquote Unquoted t)
      | Escaped =>
          if c =? 0x0A then unquote Unquoted t
          else option_map (cons c) (unquote Unquoted t)
      | SingleQuoted =>
          if c =? 0x27 then unquote Unquoted t
          else option_map (cons c) (unquote SingleQuoted t)
      end
  end.

(** The content of the argument that the word [w] denotes. *)
Definition parseWord (w : jsstring) : option jsstring := unquote Unquoted w.

(** Splitting a command-line fragment into its arguments.  Outside quotes
    a blank (space, tab, newline) ends the current word.  The other
    characters that section 2.2 requires to be quoted to stand for
    themselves (the operators, dollar, backtick, double quote), the pattern
    characters and the hash are refused outside quotes, and so is a tilde
    that opens a word: the reader accepts only input on which quote removal
    is all the shell does. *)
Definition isBlank (c : Z) : bool :=
  (c =? 0x20) || (c =? 0x09) || (c =? 0x0A).

Definition specialChars : list Z := lit "|&;<>()$`*?[#" ++ [0x22].

Definition isSpecial (c : Z) : bool := existsb (Z.eqb c) specialChars.

(** Adds a character in front of the word under construction, which is
    the first of the fields that the rest of the input gives. *)
Definition pushChar (c : Z) (r : option (list jsstring))
  : option (list jsstring) :=
  match r with
  | Some (f :: fs) => Some ((c :: f) :: fs)
  | Some [] => Some [[c]]
  | None => None
  end.

(** [inWord] tells whether a word is under construction; the fields of the
    rest of the input then start with the rest of that word. *)
Fixpoint fieldsFrom (m : mode) (inWord : bool) (w : jsstring)
  : option (list jsstring) :=
  match w with
  | [] =>
      match m with
      | Unquoted => Some (if inWord then [[]] else [])
      | Escaped | SingleQuoted => None
      end
  | c :: t =>
      match m with
      | Unquoted =>
          if c =? 0x27 then fieldsFrom SingleQuoted true t
          else if c =? 0x5C then fieldsFrom Escaped true t
          else if isBlank c then
            option_map (fun fs => if inWord then [] :: fs else fs)
                       (fieldsFrom Unquoted false t)
          else if isSpecial c then None
          else if (c =? 0x7E) && negb inWord then None
          else pushChar c (fieldsFrom Unquoted true t)
      | Escaped =>
          if c =? 0x0A then fieldsFrom Unquoted inWord t
          else pushChar c (fieldsFrom Unquoted true t)
      | SingleQuoted =>
          if c =? 0x27 then fieldsFrom Unquoted true t
          else pushChar c (fieldsFrom SingleQuoted true t)
      end
  end.

(** The arguments that the text [w] denotes. *)
Definition fields (w : jsstring) : option (list jsstring) :=
  fieldsFrom Unquoted false w.

End Posix.

(* ================================================================== *)
(** * The specification's vocabulary                                   *)
(* ================================================================== *)
Module Spec.
Import Js.

(** [s] contains the code point [c]. *)
Definition containsCodePoint (s : jsstring) (c : Z) : Prop :=
  In c (codePoints s).

Definition NulFree (s : jsstring) : Prop := ~ containsCodePoint s 0x0000.

(** The blacklist as the specification spells it; the double quote, which
    a literal cannot hold, is given by its code. *)
Definition blacklist : list Z :=
  lit "'" ++ [0x22] ++ lit "\$`|&;<>()*?[]{}!#".

(** The message the specification states for each kind of error: the
    TypeKind error is a [TypeError], the ValueKind error an [Error]. *)
Definition statedMessage (cls : ErrorClass) : string :=
  match cls with
  | TypeError => "arg must be a string"
  | Error => "arg must not include NUL (\u0000)"
  end.

(** Conditions (a) to (e) of the classification. *)
Definition isEmpty (s : jsstring) : Prop := s = [].
Definition beginsWithTilde (s : jsstring) : Prop :=
  exists t, s = lit "~" ++ t.
Definition containsWhiteSpace (s : jsstring) : Prop :=
  exists c, containsCodePoint s c /\ isWhiteSpace c = true.
Definition containsAsciiControl (s : jsstring) : Prop :=
  exists c, containsCodePoint s c /\ (0x0001 <= c <= 0x001F \/ c = 0x007F).
Definition containsOneOf (chars : list Z) (s : jsstring) : Prop :=
  exists c, containsCodePoint s c /\ In c chars.

(** The test of condition (d), as a boolean. *)
Definition isAsciiControl (c : Z) : bool :=
  ((0x01 <=? c) && (c <=? 0x1f)) || (c =? 0x7f).

(** The trigger set, over a given blacklist. *)
Definition quotingTriggered (chars : list Z) (s : jsstring) : Prop :=
  isEmpty s \/ beginsWithTilde s \/ containsWhiteSpace s
  \/ containsAsciiControl s \/ containsOneOf chars s.

(** The substitution sequence: close-quote, backslash, single-quote,
    open-quote. *)
Definition substitution : jsstring := lit "'\''".

(** The quoted literal in the specification's words: a single quote, the
    input with each single quote replaced by the substitution sequence, a
    closing single quote. *)
Definition quotedLiteral (s : jsstring) : jsstring :=
  lit "'"
    ++ flat_map (fun c => if c =? 0x27 then substitution else [c]) s
    ++ lit "'".

(** The quoted literal after its opening quote: the input with its quotes
    replaced, followed by the closing quote. *)
Definition quotedTail (s : jsstring) : jsstring :=
  flat_map (fun c => if c =? 0x27 then substitution else [c]) s ++ lit "'".

(** Number of single quotes in a string. *)
Definition countQuotes (s : jsstring) : nat := count_occ Z.eq_dec s 0x27.

(** Number of occurrences of [pat] in [s]: the indices at which [pat]
    can be read. *)
Fixpoint countOccurrences (pat s : jsstring) : nat :=
  match s with
  | [] => if isPrefix pat [] then 1%nat else 0%nat
  | _ :: t => ((if isPrefix pat s then 1 else 0) + countOccurrences pat t)%nat
  end.

(** Number of occurrences of [pat] found by scanning left to right and
    resuming each search after the end of the previous occurrence. *)
Fixpoint countDisjointFrom (pat : jsstring) (skip : nat) (s : jsstring) : nat :=
  match s with
  | [] => 0%nat
  | _ :: t =>
      match skip with
      | S k => countDisjointFrom pat k t
      | O =>
          if isPrefix pat s
          then S (countDisjointFrom pat (List.length pat - 1) t)
          else countDisjointFrom pat 0 t
      end
  end.

End Spec.

Import Js ShellEscapeArg.

Import Spec.

(* ================================================================== *)
(** * The cases of [src/ts/escape.test.ts] and [src/ts/demo.test.ts]   *)
(* ================================================================== *)
Module Tests.
Import Js.

(** [successCases]: input and expected literal.  Text outside ASCII, and
    the double quote, are given by their code units. *)
Definition successCases : list (jsstring * jsstring) :=
  [ (* unquoted *)
    (lit "abc", lit "abc");
    ([0x65E5; 0x672C; 0x8A9E], [0x65E5; 0x672C; 0x8A9E]);
    ([0xD83D; 0xDC4D], [0xD83D; 0xDC4D]);
    (lit "foo-bar", lit "foo-bar");
    (lit "a.b.c", lit "a.b.c");
    (lit "./path/to/file", lit "./path/to/file");
    (lit "gh:repo", lit "gh:repo");
    (lit "user@host", lit "user@host");
    (lit "a,b,c", lit "a,b,c");
    (lit "a+b", lit "a+b");
    (lit "a=b", lit "a=b");
    (lit "100%_ok", lit "100%_ok");
    (lit "-n", lit "-n");
    (lit "123", lit "123");
    (lit "a~b", lit "a~b");
    (* empty *)
    (lit "", lit "''");
    (* Unicode whitespace *)
    (lit "a b", lit "'a b'");
    (lit " a", lit "' a'");
    (lit "a ", lit "'a '");
    ([0x61; 0x09; 0x62], [0x27; 0x61; 0x09; 0x62; 0x27]);
    ([0x61; 0x0A; 0x62], [0x27; 0x61; 0x0A; 0x62; 0x27]);
    ([0x61; 0x0D; 0x0A; 0x62], [0x27; 0x61; 0x0D; 0x0A; 0x62; 0x27]);
    ([0x61; 0xA0; 0x62], [0x27; 0x61; 0xA0; 0x62; 0x27]);
    ([0x61; 0x3000; 0x62], [0x27; 0x61; 0x3000; 0x62; 0x27]);
    (* ASCII controls *)
    ([0x61; 0x01; 0x62], [0x27; 0x61; 0x01; 0x62; 0x27]);
    ([0x61; 0x1B; 0x62], [0x27; 0x61; 0x1B; 0x62; 0x27]);
    ([0x61; 0x7F; 0x62], [0x27; 0x61; 0x7F; 0x62; 0x27]);
    (* blacklist characters *)
    (lit "O'Reilly", lit "'O'\''Reilly'");
    ([0x61; 0x22; 0x62], [0x27; 0x61; 0x22; 0x62; 0x27]);
    (lit "a\b", lit "'a\b'");
    (lit "a$b", lit "'a$b'");
    (lit "a`b", lit "'a`b'");
    (lit "a|b", lit "'a|b'");
    (lit "a&b", lit "'a&b'");
    (lit "a;b", lit "'a;b'");
    (lit "a<b", lit "'a<b'");
    (lit "a>b", lit "'a>b'");
    (lit "a(b", lit "'a(b'");
    (lit "a)b", lit "'a)b'");
    (lit "a*b", lit "'a*b'");
    (lit "a?b", lit "'a?b'");
    (lit "a[b", lit "'a[b'");
    (lit "a]b", lit "'a]b'");
    (lit "a{b", lit "'a{b'");
    (lit "a}b", lit "'a}b'");
    (lit "a!b", lit "'a!b'");
    (lit "a#b", lit "'a#b'");
    (* leading tilde *)
    (lit "~user", lit "'~user'");
    (lit "~/src", lit "'~/src'");
    (* several single quotes *)
    (lit "a'b'c", lit "'a'\''b'\''c'");
    (lit "a ' b", lit "'a '\'' b'");
    (* demo.test.ts *)
    (lit "$HOME", lit "'$HOME'");
    (lit "*.txt", lit "'*.txt'") ].

(** [errorCases]: input, error constructor and expected message. *)
Definition errorCases : list (value * ErrorClass * string) :=
  [ (VString [0x61; 0x00; 0x62], Error,
     "escape: arg must not include NUL (\u0000)"%string);
    (VNull, TypeError, "escape: arg must be a string"%string) ].

End Tests.

(* ================================================================== *)
(** * The callers of [src/README.md] and a safe alphabet               *)
(* ================================================================== *)
Module Readme.
Import Js ShellEscapeArg.

(** [array.map(f)] for a callback that may throw: the elements are visited
    in order and the first throw ends the call. *)
Fixpoint arrayMap {A B : Type} (f : A -> completion B) (l : list A)
  : completion (list B) :=
  match l with
  | [] => Return []
  | a :: t =>
      match f a with
      | Throw cls m => Throw cls m
      | Return b =>
          match arrayMap f t with
          | Throw cls m => Throw cls m
          | Return bs => Return (b :: bs)
          end
      end
  end.

(** [parts.join(sep)] on an array of strings. *)
Fixpoint join (sep : jsstring) (parts : list jsstring) : jsstring :=
  match parts with
  | [] => []
  | p :: rest =>
      match rest with
      | [] => p
      | _ :: _ => p ++ sep ++ join sep rest
      end
  end.

(** [const formatted = args.map(shellEscapeArg).join(" ");] *)
Definition formatted (args : list value) : completion jsstring :=
  match arrayMap shellEscapeArg args with
  | Throw cls m => Throw cls m
  | Return parts => Return (join (lit " ") parts)
  end.

(** [function logCommand(program, args)]: the completion carries the line
    handed to [console.log]. *)
Definition logCommand (program : jsstring) (args : list value)
  : completion jsstring :=
  match formatted args with
  | Throw cls m => Throw cls m
  | Return f => Return (lit "Would run: " ++ program ++ lit " " ++ f)
  end.

End Readme.

Module Alphabet.
Import Js.

(** Letters and digits of ASCII. *)
Definition isAlnum (c : Z) : bool :=
  ((0x30 <=? c) && (c <=? 0x39))
  || ((0x41 <=? c) && (c <=? 0x5A))
  || ((0x61 <=? c) && (c <=? 0x7A)).

(** The punctuation that the unquoted cases of the tests use. *)
Definition plainPunctuation : list Z := lit "-_./:@,+=%".

Definition isPlainAscii (c : Z) : bool :=
  isAlnum c || existsb (Z.eqb c) plainPunctuation.

End Alphabet.

(* ================================================================== *)
(** * The built-ins at the arguments the source passes                 *)
(* ================================================================== *)
Section Builtins.

Lemma existsb_eqb_In (c : Z) (l : list Z) :
  existsb (Z.eqb c) l = true <-> In c l.
Proof.
  rewrite existsb_exists. split.
  - intros [x [Hin Heq]]. apply Z.eqb_eq in Heq. now subst.
  - intros Hin. exists c. split; [assumption | apply Z.eqb_refl].
Qed.

Lemma isPrefix_cons (a c : Z) (p l : jsstring) :
  isPrefix (a :: p) (c :: l) = (a =? c) && isPrefix p l.
Proof. reflexivity. Qed.

Lemma includes_single (c : Z) (s : jsstring) :
  includes s [c] = existsb (Z.eqb c) s.
Proof.
  induction s as [|x t IH]; simpl; [reflexivity|].
  rewrite IH, andb_true_r. reflexivity.
Qed.

Lemma includes_single_In (c : Z) (s : jsstring) :
  includes s [c] = true <-> In c s.
Proof. rewrite includes_single. apply existsb_eqb_In. Qed.

Lemma replaceAll_single (q : Z) (rep s : jsstring) :
  replaceAll s [q] rep = flat_map (fun c => if c =? q then rep else [c]) s.
Proof.
  unfold replaceAll.
  induction s as [|x t IH]; simpl; [reflexivity|].
  rewrite andb_true_r, IH, (Z.eqb_sym q x).
  destruct (x =? q); reflexivity.
Qed.

(** Induction two code units at a time, the way [codePoints] recurses. *)
Lemma jsstring_pair_ind (P : jsstring -> Prop) :
  P [] ->
  (forall u, P [u]) ->
  (forall u l t, P t -> P (l :: t) -> P (u :: l :: t)) ->
  forall s, P s.
Proof.
  intros Hnil Hone Hstep s.
  assert (H : P s /\ forall u, P (u :: s)).
  { induction s as [|l t [IHt IHlt]].
    - split; [exact Hnil | exact Hone].
    - split; [apply IHlt | intros u; apply Hstep; [exact IHt | apply IHlt]]. }
  exact (proj1 H).
Qed.

Lemma codePoints_cons2 (u l : Z) (t : jsstring) :
  codePoints (u :: l :: t) =
  if isLeadSurrogate u && isTrailSurrogate l
  then pairCodePoint u l :: codePoints t
  else u :: codePoints (l :: t).
Proof. reflexivity. Qed.

Lemma surrogate_pair_bounds (u l : Z) :
  isLeadSurrogate u && isTrailSurrogate l = true ->
  0xD800 <= u /\ 0xD800 <= l /\ 0x10000 <= pairCodePoint u l.
Proof.
  unfold isLeadSurrogate, isTrailSurrogate, pairCodePoint.
  intros H. apply andb_true_iff in H. destruct H as [Hu Hl].
  apply andb_true_iff in Hu. apply andb_true_iff in Hl.
  destruct Hu as [Hu1 Hu2]. destruct Hl as [Hl1 Hl2].
  apply Z.leb_le in Hu1, Hu2, Hl1, Hl2. lia.
Qed.

(** A code point below the surrogate range occurs in a string exactly when
    it occurs as a code unit. *)
Lemma codePoints_In_below_surrogates (c : Z) (s : jsstring) :
  c < 0xD800 -> (In c (codePoints s) <-> In c s).
Proof.
  intros Hc. induction s as [| u | u l t IHt IHlt] using jsstring_pair_ind.
  - reflexivity.
  - reflexivity.
  - rewrite codePoints_cons2.
    destruct (isLeadSurrogate u && isTrailSurrogate l) eqn:E.
    + apply surrogate_pair_bounds in E. destruct E as (Hu & Hl & Hp).
      simpl. rewrite IHt. split.
      * intros [H | H]; [lia | auto].
      * intros [H | [H | H]]; [lia | lia | auto].
    + simpl In at 1. rewrite IHlt. reflexivity.
Qed.

Lemma existsb_codePoints_below_surrogates (cls : Z -> bool) (s : jsstring) :
  (forall c, cls c = true -> c < 0xD800) ->
  existsb cls (codePoints s) = existsb cls s.
Proof.
  intros Hcls. apply eq_true_iff_eq.
  rewrite !existsb_exists. split; intros [c [Hin Hc]]; exists c; split;
    try assumption; apply (codePoints_In_below_surrogates c s (Hcls c Hc));
    assumption.
Qed.

End Builtins.

(* ================================================================== *)
(** * The classification predicates                                    *)
(* ================================================================== *)
Section Classification.

Lemma isAsciiControl_spec (c : Z) :
  isAsciiControl c = true <-> (0x0001 <= c <= 0x001F \/ c = 0x007F).
Proof.
  unfold isAsciiControl.
  rewrite orb_true_iff, andb_true_iff, !Z.leb_le, Z.eqb_eq. lia.
Qed.

Lemma isAsciiControl_below_surrogates (c : Z) :
  isAsciiControl c = true -> c < 0xD800.
Proof. rewrite isAsciiControl_spec. lia. Qed.

Lemma isShellMetaChar_In (c : Z) :
  isShellMetaChar c = true <-> In c shellMetaChars.
Proof. apply existsb_eqb_In. Qed.

Lemma isShellMetaChar_below_surrogates (c : Z) :
  isShellMetaChar c = true -> c < 0xD800.
Proof.
  rewrite isShellMetaChar_In. unfold shellMetaChars. simpl.
  intros H. repeat (destruct H as [H | H]; [lia |]). contradiction.
Qed.

(** The index loop reads the code units of the string in order. *)
Lemma hasAsciiControlCharsLoop_scan (pre t : jsstring) :
  hasAsciiControlCharsLoop (pre ++ t) (List.length t) (List.length pre)
  = existsb isAsciiControl t.
Proof.
  revert pre. induction t as [|c t IH]; intros pre; simpl; [reflexivity|].
  unfold charCodeAt. rewrite nth_error_app2 by lia.
  rewrite Nat.sub_diag. simpl.
  specialize (IH (pre ++ [c])).
  rewrite <- app_assoc, length_app, Nat.add_1_r in IH. simpl in IH.
  rewrite IH.
  change (((1 <=? c) && (c <=? 31)) || (c =? 127)) with (isAsciiControl c).
  destruct (isAsciiControl c); reflexivity.
Qed.

Lemma hasAsciiControlChars_existsb (s : jsstring) :
  hasAsciiControlChars s = existsb isAsciiControl s.
Proof. exact (hasAsciiControlCharsLoop_scan [] s). Qed.

Lemma length_zero_iff (s : jsstring) :
  (List.length s =? 0)%nat = true <-> isEmpty s.
Proof.
  unfold isEmpty. destruct s; simpl; split; intros H;
    try reflexivity; discriminate.
Qed.

Lemma startsWithTilde_iff (s : jsstring) :
  startsWithTilde s = true <-> beginsWithTilde s.
Proof.
  unfold startsWithTilde, startsWith, beginsWithTilde.
  change (lit "~") with [TILDE].
  destruct s as [|c t]; cbn [isPrefix app].
  - split; [discriminate | intros [t H]; discriminate].
  - rewrite andb_true_r, Z.eqb_eq. split.
    + intros H. exists t. now subst.
    + intros [t' H]. now inversion H.
Qed.

Lemma hasUnicodeWhitespace_iff (s : jsstring) :
  hasUnicodeWhitespace s = true <-> containsWhiteSpace s.
Proof.
  unfold hasUnicodeWhitespace, regexClassTest, containsWhiteSpace,
    containsCodePoint.
  apply existsb_exists.
Qed.

Lemma hasAsciiControlChars_iff (s : jsstring) :
  hasAsciiControlChars s = true <-> containsAsciiControl s.
Proof.
  rewrite hasAsciiControlChars_existsb.
  rewrite <- (existsb_codePoints_below_surrogates isAsciiControl s
                isAsciiControl_below_surrogates).
  unfold containsAsciiControl, containsCodePoint.
  rewrite existsb_exists.
  split; intros [c [Hin Hc]]; exists c; split; try assumption;
    apply isAsciiControl_spec; assumption.
Qed.

Lemma hasShellMetaChars_iff (s : jsstring) :
  hasShellMetaChars s = true <-> containsOneOf shellMetaChars s.
Proof.
  unfold hasShellMetaChars, regexClassTest.
  rewrite <- (existsb_codePoints_below_surrogates isShellMetaChar s
                isShellMetaChar_below_surrogates).
  unfold containsOneOf, containsCodePoint.
  rewrite existsb_exists.
  split; intros [c [Hin Hc]]; exists c; split; try assumption;
    apply isShellMetaChar_In; assumption.
Qed.

(** The source's character class and the specification's list agree. *)
Lemma blacklist_shellMetaChars : blacklist = shellMetaChars.
Proof. reflexivity. Qed.

Lemma needsQuoting_triggered (s : jsstring) :
  needsQuoting s = true <-> quotingTriggered shellMetaChars s.
Proof.
  unfold needsQuoting, quotingTriggered.
  rewrite !orb_true_iff, length_zero_iff, startsWithTilde_iff,
    hasUnicodeWhitespace_iff, hasAsciiControlChars_iff,
    hasShellMetaChars_iff.
  tauto.
Qed.

(** A string that holds a code unit of the class needs quoting. *)
Lemma needsQuoting_of_meta (c : Z) (s : jsstring) :
  In c s -> isShellMetaChar c = true -> needsQuoting s = true.
Proof.
  intros Hin Hc. unfold needsQuoting.
  assert (H : hasShellMetaChars s = true).
  { unfold hasShellMetaChars, regexClassTest. apply existsb_exists.
    exists c. split; assumption. }
  rewrite H. apply orb_true_r.
Qed.

Lemma not_needsQuoting_no_meta (c : Z) (s : jsstring) :
  needsQuoting s = false -> isShellMetaChar c = true -> ~ In c s.
Proof.
  intros Hn Hc Hin. rewrite (needsQuoting_of_meta c s Hin Hc) in Hn.
  discriminate.
Qed.

End Classification.

(* ================================================================== *)
(** * [shellEscapeArg] on a string                                     *)
(* ================================================================== *)
Section Formatting.

Lemma shellEscapeArg_string (s : jsstring) :
  shellEscapeArg (VString s) =
  if includes s [NUL] then
    Throw Error "escape: arg must not include NUL (\u0000)"
  else if negb (needsQuoting s) then Return s
  else Return ([QUOTE]
                 ++ replaceAll s [QUOTE] [QUOTE; BACKSLASH; QUOTE; QUOTE]
                 ++ [QUOTE]).
Proof. reflexivity. Qed.

Lemma containsCodePoint_NUL (s : jsstring) :
  containsCodePoint s NUL <-> includes s [NUL] = true.
Proof.
  unfold containsCodePoint. rewrite includes_single_In.
  apply codePoints_In_below_surrogates. unfold NUL. lia.
Qed.

Lemma NulFree_includes (s : jsstring) :
  NulFree s <-> includes s [NUL] = false.
Proof.
  unfold NulFree. change 0 with NUL. rewrite containsCodePoint_NUL.
  destruct (includes s [NUL]); split; intros H;
    try reflexivity; try discriminate.
  exfalso. now apply H.
Qed.

Lemma replaceAll_quotes (s : jsstring) :
  [QUOTE] ++ replaceAll s [QUOTE] [QUOTE; BACKSLASH; QUOTE; QUOTE] ++ [QUOTE]
  = quotedLiteral s.
Proof. rewrite replaceAll_single. reflexivity. Qed.

Lemma shellEscapeArg_quoted (s : jsstring) :
  NulFree s -> needsQuoting s = true ->
  shellEscapeArg (VString s) = Return (quotedLiteral s).
Proof.
  intros Hnul Hq. rewrite shellEscapeArg_string.
  apply NulFree_includes in Hnul. rewrite Hnul, Hq. cbn [negb].
  now rewrite replaceAll_quotes.
Qed.

Lemma shellEscapeArg_plain (s : jsstring) :
  NulFree s -> needsQuoting s = false ->
  shellEscapeArg (VString s) = Return s.
Proof.
  intros Hnul Hq. rewrite shellEscapeArg_string.
  apply NulFree_includes in Hnul. now rewrite Hnul, Hq.
Qed.

Lemma quotedLiteral_tail (s : jsstring) :
  quotedLiteral s = QUOTE :: quotedTail s.
Proof. reflexivity. Qed.

Lemma quotedTail_nil : quotedTail [] = [QUOTE].
Proof. reflexivity. Qed.

Lemma quotedTail_quote (t : jsstring) :
  quotedTail (QUOTE :: t) = QUOTE :: BACKSLASH :: QUOTE :: QUOTE :: quotedTail t.
Proof. reflexivity. Qed.

Lemma quotedTail_other (c : Z) (t : jsstring) :
  c <> QUOTE -> quotedTail (c :: t) = c :: quotedTail t.
Proof.
  intros Hc. unfold quotedTail. cbn [flat_map].
  apply Z.eqb_neq in Hc. unfold QUOTE in Hc. rewrite Hc. reflexivity.
Qed.

End Formatting.

(* ================================================================== *)
(** * Reading the literal back                                         *)
(* ================================================================== *)
Section RoundTrip.

Lemma unquote_unquoted_other (c : Z) (t : jsstring) :
  c <> QUOTE -> c <> BACKSLASH ->
  Posix.unquote Posix.Unquoted (c :: t)
  = option_map (cons c) (Posix.unquote Posix.Unquoted t).
Proof.
  unfold QUOTE, BACKSLASH. intros H1 H2. cbn [Posix.unquote].
  apply Z.eqb_neq in H1, H2. now rewrite H1, H2.
Qed.

Lemma unquote_single_other (c : Z) (t : jsstring) :
  c <> QUOTE ->
  Posix.unquote Posix.SingleQuoted (c :: t)
  = option_map (cons c) (Posix.unquote Posix.SingleQuoted t).
Proof.
  unfold QUOTE. intros H1. cbn [Posix.unquote].
  apply Z.eqb_neq in H1. now rewrite H1.
Qed.

(** A word without quote or backslash denotes itself. *)
Lemma unquote_plain (s : jsstring) :
  ~ In QUOTE s -> ~ In BACKSLASH s ->
  Posix.unquote Posix.Unquoted s = Some s.
Proof.
  induction s as [|c t IH]; intros Hq Hb; [reflexivity|].
  rewrite unquote_unquoted_other.
  - rewrite IH; [reflexivity | |]; intros H; [apply Hq | apply Hb];
      now right.
  - intros ->. apply Hq. now left.
  - intros ->. apply Hb. now left.
Qed.

(** From inside the opening quote, the rest of the literal reads back as
    the input. *)
Lemma unquote_quotedTail (s : jsstring) :
  Posix.unquote Posix.SingleQuoted (quotedTail s) = Some s.
Proof.
  induction s as [|c t IH]; [reflexivity|].
  destruct (Z.eq_dec c QUOTE) as [-> | Hc].
  - rewrite quotedTail_quote.
    change (Posix.unquote Posix.SingleQuoted
              (QUOTE :: BACKSLASH :: QUOTE :: QUOTE :: quotedTail t))
      with (option_map (cons QUOTE)
              (Posix.unquote Posix.SingleQuoted (quotedTail t))).
    now rewrite IH.
  - rewrite quotedTail_other, unquote_single_other by assumption.
    now rewrite IH.
Qed.

Lemma parseWord_quotedLiteral (s : jsstring) :
  Posix.parseWord (quotedLiteral s) = Some s.
Proof.
  rewrite quotedLiteral_tail. unfold Posix.parseWord.
  change (Posix.unquote Posix.Unquoted (QUOTE :: quotedTail s))
    with (Posix.unquote Posix.SingleQuoted (quotedTail s)).
  apply unquote_quotedTail.
Qed.

Lemma isWhiteSpace_below_surrogates (c : Z) :
  isWhiteSpace c = true -> c < 0xD800.
Proof.
  unfold isWhiteSpace.
  rewrite !orb_true_iff, !andb_true_iff, !Z.leb_le, !Z.eqb_eq. lia.
Qed.

Lemma isBlank_isWhiteSpace (c : Z) :
  Posix.isBlank c = true -> isWhiteSpace c = true.
Proof.
  unfold Posix.isBlank. rewrite !orb_true_iff, !Z.eqb_eq.
  intros [[-> | ->] | ->]; reflexivity.
Qed.

Lemma isSpecial_isShellMetaChar (c : Z) :
  Posix.isSpecial c = true -> isShellMetaChar c = true.
Proof.
  unfold Posix.isSpecial. rewrite existsb_eqb_In.
  unfold Posix.specialChars. simpl In. intros H.
  repeat (destruct H as [<- | H]; [reflexivity|]). contradiction.
Qed.

(** What a string that needs no quoting is made of. *)
Lemma not_needsQuoting_chars (s : jsstring) :
  needsQuoting s = false ->
  s <> []
  /\ startsWithTilde s = false
  /\ forall c, In c s -> isWhiteSpace c = false /\ isShellMetaChar c = false.
Proof.
  unfold needsQuoting. rewrite !orb_false_iff.
  intros [[[[He Ht] Hw] _] Hm].
  split; [intros ->; discriminate He|]. split; [exact Ht|].
  unfold hasUnicodeWhitespace, hasShellMetaChars, regexClassTest in Hw, Hm.
  rewrite (existsb_codePoints_below_surrogates isWhiteSpace s
             isWhiteSpace_below_surrogates) in Hw.
  intros c Hin. split.
  - destruct (isWhiteSpace c) eqn:E; [|reflexivity].
    rewrite <- Hw. symmetry. apply existsb_exists. now exists c.
  - destruct (isShellMetaChar c) eqn:E; [|reflexivity].
    rewrite <- Hm. symmetry. apply existsb_exists. now exists c.
Qed.

Lemma fieldsFrom_unquoted_plain (c : Z) (b : bool) (t : jsstring) :
  isWhiteSpace c = false -> isShellMetaChar c = false ->
  Posix.fieldsFrom Posix.Unquoted b (c :: t)
  = if (c =? TILDE) && negb b then None
    else Posix.pushChar c (Posix.fieldsFrom Posix.Unquoted true t).
Proof.
  intros Hw Hm. cbn [Posix.fieldsFrom].
  assert (Hq : (c =? 39) = false).
  { apply Z.eqb_neq. intros ->. discriminate Hm. }
  assert (Hb : (c =? 92) = false).
  { apply Z.eqb_neq. intros ->. discriminate Hm. }
  assert (Hbl : Posix.isBlank c = false).
  { destruct (Posix.isBlank c) eqn:E; [|reflexivity].
    apply isBlank_isWhiteSpace in E. congruence. }
  assert (Hsp : Posix.isSpecial c = false).
  { destruct (Posix.isSpecial c) eqn:E; [|reflexivity].
    apply isSpecial_isShellMetaChar in E. congruence. }
  now rewrite Hq, Hb, Hbl, Hsp.
Qed.

Lemma fieldsFrom_plain (s : jsstring) :
  (forall c, In c s -> isWhiteSpace c = false /\ isShellMetaChar c = false) ->
  Posix.fieldsFrom Posix.Unquoted true s = Some [s].
Proof.
  induction s as [|c t IH]; intros H; [reflexivity|].
  destruct (H c (or_introl eq_refl)) as [Hw Hm].
  rewrite fieldsFrom_unquoted_plain, andb_false_r by assumption.
  rewrite IH; [reflexivity|]. intros x Hx. apply H. now right.
Qed.

(** An unquoted string that needs no quoting is one argument, itself. *)
Lemma fields_plain (s : jsstring) :
  needsQuoting s = false -> Posix.fields s = Some [s].
Proof.
  intros Hq. destruct (not_needsQuoting_chars s Hq) as (He & Ht & Hc).
  destruct s as [|c t]; [now contradiction He|].
  unfold Posix.fields.
  destruct (Hc c (or_introl eq_refl)) as [Hw Hm].
  rewrite fieldsFrom_unquoted_plain by assumption.
  unfold startsWithTilde, startsWith in Ht.
  change (lit "~") with [TILDE] in Ht.
  rewrite isPrefix_cons, andb_true_r, Z.eqb_sym in Ht.
  rewrite Ht. cbn [andb].
  rewrite fieldsFrom_plain; [reflexivity|].
  intros x Hx. apply Hc. now right.
Qed.

Lemma fieldsFrom_single_other (c : Z) (t : jsstring) :
  c <> QUOTE ->
  Posix.fieldsFrom Posix.SingleQuoted true (c :: t)
  = Posix.pushChar c (Posix.fieldsFrom Posix.SingleQuoted true t).
Proof.
  unfold QUOTE. intros H. cbn [Posix.fieldsFrom].
  apply Z.eqb_neq in H. now rewrite H.
Qed.

Lemma fieldsFrom_quotedTail (s : jsstring) :
  Posix.fieldsFrom Posix.SingleQuoted true (quotedTail s) = Some [s].
Proof.
  induction s as [|c t IH]; [reflexivity|].
  destruct (Z.eq_dec c QUOTE) as [-> | Hc].
  - rewrite quotedTail_quote.
    change (Posix.fieldsFrom Posix.SingleQuoted true
              (QUOTE :: BACKSLASH :: QUOTE :: QUOTE :: quotedTail t))
      with (Posix.pushChar QUOTE
              (Posix.fieldsFrom Posix.SingleQuoted true (quotedTail t))).
    now rewrite IH.
  - rewrite quotedTail_other, fieldsFrom_single_other by assumption.
    now rewrite IH.
Qed.

(** The quoted literal is one argument, the input. *)
Lemma fields_quotedLiteral (s : jsstring) :
  Posix.fields (quotedLiteral s) = Some [s].
Proof.
  rewrite quotedLiteral_tail. unfold Posix.fields.
  change (Posix.fieldsFrom Posix.Unquoted false (QUOTE :: quotedTail s))
    with (Posix.fieldsFrom Posix.SingleQuoted true (quotedTail s)).
  apply fieldsFrom_quotedTail.
Qed.

End RoundTrip.

(* ================================================================== *)
(** * Occurrences of the substitution sequence                         *)
(* ================================================================== *)
Section Occurrences.

Lemma substitution_units :
  substitution = [QUOTE; BACKSLASH; QUOTE; QUOTE].
Proof. reflexivity. Qed.

Lemma QUOTE_eqb_other (c : Z) : c <> QUOTE -> (QUOTE =? c) = false.
Proof. intros H. apply Z.eqb_neq. congruence. Qed.

(** Two quotes in a row never open what follows the opening quote. *)
Lemma quotedTail_no_double_quote (t : jsstring) :
  isPrefix [QUOTE; QUOTE] (quotedTail t) = false.
Proof.
  destruct t as [|c t]; [reflexivity|].
  destruct (Z.eq_dec c QUOTE) as [-> | Hc].
  - rewrite quotedTail_quote. reflexivity.
  - rewrite quotedTail_other, isPrefix_cons, QUOTE_eqb_other by assumption.
    reflexivity.
Qed.

Lemma quotedTail_no_backslash_quotes (t : jsstring) :
  isPrefix [BACKSLASH; QUOTE; QUOTE] (quotedTail t) = false.
Proof.
  destruct t as [|c t]; [reflexivity|].
  destruct (Z.eq_dec c QUOTE) as [-> | Hc].
  - rewrite quotedTail_quote. reflexivity.
  - rewrite quotedTail_other, isPrefix_cons, quotedTail_no_double_quote
      by assumption.
    apply andb_false_r.
Qed.

(** The opening quote, and the last quote of a substitution, do not start
    another substitution sequence. *)
Lemma substitution_not_before_tail (t : jsstring) :
  isPrefix substitution (QUOTE :: quotedTail t) = false.
Proof.
  rewrite substitution_units, isPrefix_cons, quotedTail_no_backslash_quotes.
  apply andb_false_r.
Qed.

Lemma substitution_not_at_other (c : Z) (l : jsstring) :
  c <> QUOTE -> isPrefix substitution (c :: l) = false.
Proof.
  intros Hc. rewrite substitution_units, isPrefix_cons, QUOTE_eqb_other
    by assumption.
  reflexivity.
Qed.

Lemma countOccurrences_cons (pat : jsstring) (c : Z) (l : jsstring) :
  countOccurrences pat (c :: l)
  = ((if isPrefix pat (c :: l) then 1 else 0) + countOccurrences pat l)%nat.
Proof. reflexivity. Qed.

Lemma countQuotes_quote (t : jsstring) :
  countQuotes (QUOTE :: t) = S (countQuotes t).
Proof. unfold countQuotes. now rewrite count_occ_cons_eq. Qed.

Lemma countQuotes_other (c : Z) (t : jsstring) :
  c <> QUOTE -> countQuotes (c :: t) = countQuotes t.
Proof. intros H. unfold countQuotes. now rewrite count_occ_cons_neq. Qed.

Lemma countQuotes_none (s : jsstring) :
  ~ In QUOTE s -> countQuotes s = 0%nat.
Proof. intros H. unfold countQuotes. now apply count_occ_not_In. Qed.

Lemma countOccurrences_quotedTail (s : jsstring) :
  countOccurrences substitution (quotedTail s) = countQuotes s.
Proof.
  induction s as [|c t IH]; [reflexivity|].
  destruct (Z.eq_dec c QUOTE) as [-> | Hc].
  - rewrite quotedTail_quote, countQuotes_quote, <- IH.
    rewrite countOccurrences_cons.
    change (isPrefix substitution
              (QUOTE :: BACKSLASH :: QUOTE :: QUOTE :: quotedTail t))
      with true.
    rewrite countOccurrences_cons.
    change (isPrefix substitution
              (BACKSLASH :: QUOTE :: QUOTE :: quotedTail t))
      with false.
    rewrite countOccurrences_cons.
    change (isPrefix substitution (QUOTE :: QUOTE :: quotedTail t))
      with false.
    rewrite countOccurrences_cons, substitution_not_before_tail.
    reflexivity.
  - rewrite quotedTail_other, countQuotes_other by assumption.
    rewrite countOccurrences_cons, substitution_not_at_other by assumption.
    exact IH.
Qed.

Lemma countOccurrences_quotedLiteral (s : jsstring) :
  countOccurrences substitution (quotedLiteral s) = countQuotes s.
Proof.
  rewrite quotedLiteral_tail, countOccurrences_cons,
    substitution_not_before_tail.
  apply countOccurrences_quotedTail.
Qed.

Lemma countOccurrences_no_quote (s : jsstring) :
  ~ In QUOTE s -> countOccurrences substitution s = 0%nat.
Proof.
  induction s as [|c t IH]; intros Hq; [reflexivity|].
  rewrite countOccurrences_cons, substitution_not_at_other.
  - apply IH. intros H. apply Hq. now right.
  - intros ->. apply Hq. now left.
Qed.

Lemma countDisjointFrom_cons (pat : jsstring) (c : Z) (l : jsstring) :
  countDisjointFrom pat 0 (c :: l)
  = if isPrefix pat (c :: l)
    then S (countDisjointFrom pat (List.length pat - 1) l)
    else countDisjointFrom pat 0 l.
Proof. reflexivity. Qed.

Lemma countDisjointFrom_quotedTail (s : jsstring) :
  countDisjointFrom substitution 0 (quotedTail s) = countQuotes s.
Proof.
  induction s as [|c t IH]; [reflexivity|].
  destruct (Z.eq_dec c QUOTE) as [-> | Hc].
  - rewrite quotedTail_quote, countQuotes_quote, <- IH. reflexivity.
  - rewrite quotedTail_other, countQuotes_other by assumption.
    rewrite countDisjointFrom_cons, substitution_not_at_other by assumption.
    exact IH.
Qed.

Lemma countDisjointFrom_quotedLiteral (s : jsstring) :
  countDisjointFrom substitution 0 (quotedLiteral s) = countQuotes s.
Proof.
  rewrite quotedLiteral_tail, countDisjointFrom_cons,
    substitution_not_before_tail.
  apply countDisjointFrom_quotedTail.
Qed.

Lemma countDisjointFrom_no_quote (s : jsstring) :
  ~ In QUOTE s -> countDisjointFrom substitution 0 s = 0%nat.
Proof.
  induction s as [|c t IH]; intros Hq; [reflexivity|].
  rewrite countDisjointFrom_cons, substitution_not_at_other.
  - apply IH. intros H. apply Hq. now right.
  - intros ->. apply Hq. now left.
Qed.

End Occurrences.

(* ================================================================== *)
(** * The literal, code point by code point                            *)
(* ================================================================== *)
Section CodePoints.

Lemma codePoints_cons_not_lead (u : Z) (l : jsstring) :
  isLeadSurrogate u = false -> codePoints (u :: l) = u :: codePoints l.
Proof.
  intros H. destruct l as [|x l]; [reflexivity|].
  rewrite codePoints_cons2, H. reflexivity.
Qed.

Lemma codePoints_cons_not_trail (u x : Z) (l : jsstring) :
  isTrailSurrogate x = false ->
  codePoints (u :: x :: l) = u :: codePoints (x :: l).
Proof.
  intros H. rewrite codePoints_cons2, H, andb_false_r. reflexivity.
Qed.

Lemma codePoints_quote (l : jsstring) :
  codePoints (QUOTE :: l) = QUOTE :: codePoints l.
Proof. now apply codePoints_cons_not_lead. Qed.

Lemma codePoints_substitution (l : jsstring) :
  codePoints (QUOTE :: BACKSLASH :: QUOTE :: QUOTE :: l)
  = QUOTE :: BACKSLASH :: QUOTE :: QUOTE :: codePoints l.
Proof.
  rewrite codePoints_quote.
  rewrite (codePoints_cons_not_lead BACKSLASH) by reflexivity.
  now rewrite !codePoints_quote.
Qed.

(** Quoting never splits a surrogate pair: the code points of the literal
    are the literal of the code points. *)
Lemma codePoints_quotedTail (s : jsstring) :
  codePoints (quotedTail s) = quotedTail (codePoints s).
Proof.
  induction s as [| u | u l t IHt IHlt] using jsstring_pair_ind.
  - reflexivity.
  - destruct (Z.eq_dec u QUOTE) as [-> | Hu]; [reflexivity|].
    cbn [codePoints]. rewrite !quotedTail_other by assumption.
    rewrite quotedTail_nil.
    now rewrite codePoints_cons_not_trail by reflexivity.
  - destruct (Z.eq_dec u QUOTE) as [-> | Hu].
    + rewrite quotedTail_quote, codePoints_substitution, IHlt.
      now rewrite codePoints_quote, quotedTail_quote.
    + rewrite (quotedTail_other u) by assumption.
      destruct (Z.eq_dec l QUOTE) as [-> | Hl].
      * rewrite quotedTail_quote.
        rewrite !(codePoints_cons_not_trail u QUOTE) by reflexivity.
        rewrite <- quotedTail_quote, IHlt.
        now rewrite (quotedTail_other u) by assumption.
      * rewrite (quotedTail_other l) by assumption.
        rewrite !codePoints_cons2.
        destruct (isLeadSurrogate u && isTrailSurrogate l) eqn:E.
        -- rewrite IHt. apply surrogate_pair_bounds in E.
           rewrite quotedTail_other; [reflexivity|].
           unfold QUOTE. lia.
        -- rewrite <- (quotedTail_other l) by assumption.
           rewrite IHlt. now rewrite (quotedTail_other u) by assumption.
Qed.

Lemma codePoints_quotedLiteral (s : jsstring) :
  codePoints (quotedLiteral s) = quotedLiteral (codePoints s).
Proof.
  now rewrite !quotedLiteral_tail, codePoints_quote, codePoints_quotedTail.
Qed.

Lemma In_quotedTail (c : Z) (l : list Z) :
  In c (quotedTail l) -> In c l \/ c = QUOTE \/ c = BACKSLASH.
Proof.
  induction l as [|x t IH].
  - intros [H | []]. right. left. now symmetry.
  - destruct (Z.eq_dec x QUOTE) as [-> | Hx].
    + rewrite quotedTail_quote.
      intros [H | [H | [H | [H | H]]]];
        try (apply IH in H; simpl; tauto); simpl; auto.
    + rewrite quotedTail_other by assumption.
      intros [H | H]; [ simpl; auto | apply IH in H; simpl; tauto ].
Qed.

Lemma In_quotedLiteral (c : Z) (l : list Z) :
  In c (quotedLiteral l) -> In c l \/ c = QUOTE \/ c = BACKSLASH.
Proof.
  rewrite quotedLiteral_tail. intros [H | H]; [auto | now apply In_quotedTail].
Qed.

Lemma quotedLiteral_ends (s : jsstring) :
  (2 <= List.length (quotedLiteral s))%nat
  /\ nth_error (quotedLiteral s) 0 = Some QUOTE
  /\ nth_error (quotedLiteral s) (List.length (quotedLiteral s) - 1)
     = Some QUOTE.
Proof.
  unfold quotedLiteral.
  set (body := flat_map (fun c => if c =? 39 then substitution else [c]) s).
  change (lit "'") with [QUOTE].
  cbn [app List.length nth_error]. rewrite length_app. cbn [List.length].
  split; [lia|]. split; [reflexivity|].
  replace (S (List.length body + 1) - 1)%nat with (S (List.length body))
    by lia.
  cbn [nth_error]. rewrite nth_error_app2 by lia.
  now rewrite Nat.sub_diag.
Qed.

Lemma quotedLiteral_longer (s : jsstring) :
  (List.length s < List.length (quotedLiteral s))%nat.
Proof.
  rewrite quotedLiteral_tail. cbn [List.length].
  enough (List.length s < List.length (quotedTail s))%nat by lia.
  induction s as [|c t IH]; [cbn; lia|].
  destruct (Z.eq_dec c QUOTE) as [-> | Hc].
  - rewrite quotedTail_quote. cbn [List.length]. lia.
  - rewrite quotedTail_other by assumption. cbn [List.length]. lia.
Qed.

End CodePoints.

(* ================================================================== *)
(** * The character class of [hasShellMetaChars]                       *)
(* ================================================================== *)
Section MetaChars.

Lemma shellMetaChars_NoDup : NoDup shellMetaChars.
Proof.
  unfold shellMetaChars.
  repeat (constructor; [ simpl; intuition discriminate |]).
  constructor.
Qed.

Lemma shellMetaChars_length : List.length shellMetaChars = 20%nat.
Proof. reflexivity. Qed.

(** A character of the class triggers none of the conditions (b), (c), (d)
    when it stands alone. *)
Lemma shellMetaChar_only_blacklisted (m : Z) :
  In m shellMetaChars ->
  m <> TILDE /\ isWhiteSpace m = false /\ isAsciiControl m = false.
Proof.
  unfold shellMetaChars, TILDE. simpl In. intros H.
  repeat (destruct H as [<- | H];
          [ repeat split; try reflexivity; discriminate |]).
  contradiction.
Qed.

(** Whatever list plays the blacklist in the trigger set, it holds every
    character of the source's class. *)
Lemma triggers_cover_class (chars : list Z) :
  (forall s, needsQuoting s = true <-> quotingTriggered chars s) ->
  incl shellMetaChars chars.
Proof.
  intros H m Hm.
  destruct (shellMetaChar_only_blacklisted m Hm) as (Ht & Hw & Hc).
  assert (Hq : needsQuoting [m] = true).
  { apply (needsQuoting_of_meta m); [now left | now apply isShellMetaChar_In]. }
  apply H in Hq.
  destruct Hq as [He | [[t Hb] | [[c [Hin Hws]] | [[c [Hin Hctl]] | Ho]]]].
  - discriminate He.
  - inversion Hb. contradiction.
  - destruct Hin as [<- | []]. congruence.
  - destruct Hin as [<- | []]. apply isAsciiControl_spec in Hctl. congruence.
  - destruct Ho as [c [[<- | []] Hin]]. exact Hin.
Qed.

End MetaChars.

(* ================================================================== *)
(** * The embedding against the repository's tests                     *)
(* ================================================================== *)
Section TestCases.

Lemma successCases_pass :
  Forall (fun c => shellEscapeArg (VString (fst c)) = Return (snd c))
         Tests.successCases.
Proof.
  unfold Tests.successCases.
  repeat (apply Forall_cons; [vm_compute; reflexivity|]).
  apply Forall_nil.
Qed.

Lemma errorCases_pass :
  Forall (fun c => shellEscapeArg (fst (fst c)) = Throw (snd (fst c)) (snd c))
         Tests.errorCases.
Proof.
  unfold Tests.errorCases.
  repeat (apply Forall_cons; [vm_compute; reflexivity|]).
  apply Forall_nil.
Qed.

(** Every expected literal of the tests is one argument, the input. *)
Lemma successCases_read_back :
  Forall (fun c => Posix.fields (snd c) = Some [fst c]) Tests.successCases.
Proof.
  unfold Tests.successCases.
  repeat (apply Forall_cons; [vm_compute; reflexivity|]).
  apply Forall_nil.
Qed.

End TestCases.

(* ================================================================== *)
(** * The properties of the specification                              *)
(* ================================================================== *)

(** C1 (round trip).  For every input string without U+0000,
    [shellEscapeArg] returns a literal, and reading that literal as one
    POSIX shell word (quote removal: single-quoted parts are literal, an
    unquoted backslash keeps the next character, other unquoted characters
    are literal) gives the input; split into arguments, the literal is
    exactly one argument, whose content is the input. *)
Theorem round_trip (s : jsstring) :
  NulFree s ->
  exists out,
    shellEscapeArg (VString s) = Return out
    /\ Posix.parseWord out = Some s
    /\ Posix.fields out = Some [s].
Proof.
  intros Hnul. destruct (needsQuoting s) eqn:Hq.
  - exists (quotedLiteral s). split; [now apply shellEscapeArg_quoted|].
    split; [apply parseWord_quotedLiteral | apply fields_quotedLiteral].
  - exists s. split; [now apply shellEscapeArg_plain|].
    split; [|now apply fields_plain].
    apply unquote_plain;
      apply (not_needsQuoting_no_meta _ s Hq); reflexivity.
Qed.

Lemma round_trip_witness :
  exists out,
    shellEscapeArg (VString (lit "O'Reilly")) = Return out
    /\ Posix.parseWord out = Some (lit "O'Reilly")
    /\ Posix.fields out = Some [lit "O'Reilly"].
Proof.
  apply (round_trip (lit "O'Reilly")).
  apply NulFree_includes. reflexivity.
Defined.

(** C4 (quoted literal).  For every string without U+0000 for which
    [needsQuoting] is true, [shellEscapeArg] returns a single quote, the
    input with every single quote replaced by the four-character
    substitution sequence, and a closing single quote; the same holds of
    the literal read code point by code point. *)
Theorem quoted_path_exact (s : jsstring) :
  NulFree s -> needsQuoting s = true ->
  exists out,
    shellEscapeArg (VString s) = Return out
    /\ out = quotedLiteral s
    /\ codePoints out = quotedLiteral (codePoints s).
Proof.
  intros Hnul Hq. exists (quotedLiteral s).
  split; [now apply shellEscapeArg_quoted|].
  split; [reflexivity | apply codePoints_quotedLiteral].
Qed.

Lemma quoted_path_exact_witness :
  exists out,
    shellEscapeArg (VString (lit "a ' b")) = Return out
    /\ out = quotedLiteral (lit "a ' b")
    /\ codePoints out = quotedLiteral (codePoints (lit "a ' b")).
Proof.
  apply (quoted_path_exact (lit "a ' b")).
  - apply NulFree_includes. reflexivity.
  - reflexivity.
Defined.

(** C5 (fast path).  For every string without U+0000 for which
    [needsQuoting] is false, [shellEscapeArg] returns the input itself,
    code unit for code unit. *)
Theorem fast_path_exact (s : jsstring) :
  NulFree s -> needsQuoting s = false ->
  shellEscapeArg (VString s) = Return s.
Proof. exact (shellEscapeArg_plain s). Qed.

Lemma fast_path_exact_witness :
  shellEscapeArg (VString (lit "--dangerous-flag"))
  = Return (lit "--dangerous-flag").
Proof.
  apply (fast_path_exact (lit "--dangerous-flag")).
  - apply NulFree_includes. reflexivity.
  - reflexivity.
Defined.

(** C7 (single-quote escaping).  For every input string without U+0000,
    the number of single quotes in the input equals the number of
    occurrences of the substitution sequence in the returned literal,
    whether every index at which the sequence can be read is counted or the
    occurrences are counted left to right without overlap. *)
Theorem substitutions_match_quotes (s : jsstring) :
  NulFree s ->
  exists out,
    shellEscapeArg (VString s) = Return out
    /\ countOccurrences substitution out = countQuotes s
    /\ countDisjointFrom substitution 0 out = countQuotes s.
Proof.
  intros Hnul. destruct (needsQuoting s) eqn:Hq.
  - exists (quotedLiteral s). split; [now apply shellEscapeArg_quoted|].
    split; [apply countOccurrences_quotedLiteral
           | apply countDisjointFrom_quotedLiteral].
  - exists s. split; [now apply shellEscapeArg_plain|].
    assert (Hno : ~ In QUOTE s)
      by (apply (not_needsQuoting_no_meta _ s Hq); reflexivity).
    rewrite countOccurrences_no_quote, countDisjointFrom_no_quote,
      countQuotes_none by assumption.
    split; reflexivity.
Qed.

Lemma substitutions_match_quotes_witness :
  exists out,
    shellEscapeArg (VString (lit "a'b'c")) = Return out
    /\ countOccurrences substitution out = countQuotes (lit "a'b'c")
    /\ countDisjointFrom substitution 0 out = countQuotes (lit "a'b'c").
Proof.
  apply (substitutions_match_quotes (lit "a'b'c")).
  apply NulFree_includes. reflexivity.
Defined.

(** C2 (error messages).  Whenever [shellEscapeArg] fails, the message is
    the text the specification states with the prefix [escape: ] before
    it: a [TypeError] with message
    [escape: arg must be a string] when the argument is not a string, an
    [Error] with message [escape: arg must not include NUL (\u0000)] when it
    is a string that contains U+0000. *)
Theorem error_messages (v : value) (cls : ErrorClass) (m : string) :
  shellEscapeArg v = Throw cls m ->
  m = ("escape: " ++ statedMessage cls)%string
  /\ ((cls = TypeError
       /\ typeof v <> "string"%string
       /\ m = "escape: arg must be a string"%string)
      \/ (cls = Error
          /\ (exists s, v = VString s /\ containsCodePoint s NUL)
          /\ m = "escape: arg must not include NUL (\u0000)"%string)).
Proof.
  intros H.
  destruct v as [| | b | n | s |];
    try (inversion H; subst; split;
         [ reflexivity
         | left; repeat split; try reflexivity; discriminate ]).
  rewrite shellEscapeArg_string in H.
  destruct (includes s [NUL]) eqn:Hnul.
  - inversion H; subst. split; [reflexivity|].
    right. repeat split; try reflexivity.
    exists s. split; [reflexivity | now apply containsCodePoint_NUL].
  - destruct (negb (needsQuoting s)); discriminate H.
Qed.

Lemma error_messages_witness :
  "escape: arg must be a string"%string
  = ("escape: " ++ statedMessage TypeError)%string
  /\ ((TypeError = TypeError
       /\ typeof VNull <> "string"%string
       /\ "escape: arg must be a string"%string
          = "escape: arg must be a string"%string)
      \/ (TypeError = Error
          /\ (exists s, VNull = VString s /\ containsCodePoint s NUL)
          /\ "escape: arg must be a string"%string
             = "escape: arg must not include NUL (\u0000)"%string)).
Proof.
  apply (error_messages VNull TypeError "escape: arg must be a string").
  reflexivity.
Defined.

(** C2, the bare texts: on [null] and on the string a, U+0000, b the
    thrown message is not the text that the specification states. *)
Lemma error_messages_not_as_stated :
  (exists m, shellEscapeArg VNull = Throw TypeError m
             /\ m <> statedMessage TypeError)
  /\ (exists m, shellEscapeArg (VString [0x61; 0x00; 0x62]) = Throw Error m
                /\ m <> statedMessage Error).
Proof.
  split.
  - exists "escape: arg must be a string"%string.
    split; [reflexivity | discriminate].
  - exists "escape: arg must not include NUL (\u0000)"%string.
    split; [reflexivity | discriminate].
Qed.

(** C3 (classification).  For every string, [needsQuoting] is
    true exactly when the string is empty, or begins with a tilde, or
    contains a code point with the property White_Space, or contains a
    code point in U+0001 to U+001F or U+007F, or contains one of the
    blacklist characters; these are twenty distinct characters. *)
Theorem needsQuoting_iff_triggers (s : jsstring) :
  (needsQuoting s = true <-> quotingTriggered blacklist s)
  /\ List.length blacklist = 20%nat
  /\ NoDup blacklist.
Proof.
  rewrite blacklist_shellMetaChars.
  split; [apply needsQuoting_triggered|].
  split; [apply shellMetaChars_length | apply shellMetaChars_NoDup].
Qed.

(** C3, the size of the blacklist: no list of 19 characters gives the
    trigger set of [needsQuoting]. *)
Lemma no_blacklist_of_19 :
  ~ exists chars : list Z,
      List.length chars = 19%nat
      /\ forall s, needsQuoting s = true <-> quotingTriggered chars s.
Proof.
  intros [chars [Hlen H]].
  pose proof (NoDup_incl_length shellMetaChars_NoDup
                (triggers_cover_class chars H)) as Hle.
  rewrite shellMetaChars_length, Hlen in Hle. lia.
Qed.

(** C6 (NUL is rejected first).  For every string, [shellEscapeArg] throws
    the [Error] of the NUL check exactly when the string contains U+0000,
    whatever the classification of the string would be; a call that throws
    returns no literal, and a string without U+0000 gets one. *)
Theorem nul_rejected (s : jsstring) :
  ((exists m, shellEscapeArg (VString s) = Throw Error m)
   <-> containsCodePoint s NUL)
  /\ (containsCodePoint s NUL ->
      shellEscapeArg (VString s)
      = Throw Error "escape: arg must not include NUL (\u0000)"
      /\ forall out, shellEscapeArg (VString s) <> Return out)
  /\ (~ containsCodePoint s NUL ->
      exists out, shellEscapeArg (VString s) = Return out).
Proof.
  rewrite containsCodePoint_NUL, shellEscapeArg_string.
  destruct (includes s [NUL]) eqn:Hnul.
  - split; [split; [reflexivity | intros _; eauto]|].
    split; [intros _; split; [reflexivity | discriminate]|].
    intros H. now contradiction H.
  - split.
    + split; [|discriminate].
      intros [m H]. destruct (negb (needsQuoting s)); discriminate H.
    + split; [discriminate|]. intros _.
      destruct (negb (needsQuoting s)); eauto.
Qed.

Lemma nul_rejected_witness :
  shellEscapeArg (VString [0x61; 0x00; 0x20; 0x62])
  = Throw Error "escape: arg must not include NUL (\u0000)"
  /\ forall out, shellEscapeArg (VString [0x61; 0x00; 0x20; 0x62])
                 <> Return out.
Proof.
  apply (proj1 (proj2 (nul_rejected [0x61; 0x00; 0x20; 0x62]))).
  apply containsCodePoint_NUL. reflexivity.
Defined.

(** C8 (tilde only in front).  The tilde condition of [needsQuoting] holds
    exactly when the first code unit of the string is a tilde.  A string
    whose first code unit is a tilde needs quoting and, when it holds no
    U+0000, is returned as the quoted literal.  A string that meets none of
    the conditions (a), (c), (d), (e) needs quoting exactly when its first
    code unit is a tilde; so such a string without U+0000 whose first code
    unit is not a tilde (tildes further on are allowed) is returned
    unchanged. *)
Theorem tilde_only_leading (s : jsstring) :
  (startsWithTilde s = true <-> nth_error s 0 = Some TILDE)
  /\ (nth_error s 0 = Some TILDE -> needsQuoting s = true)
  /\ (NulFree s -> nth_error s 0 = Some TILDE ->
      shellEscapeArg (VString s) = Return (quotedLiteral s))
  /\ (~ isEmpty s ->
      ~ containsWhiteSpace s ->
      ~ containsAsciiControl s ->
      ~ containsOneOf blacklist s ->
      (needsQuoting s = true <-> nth_error s 0 = Some TILDE))
  /\ (NulFree s ->
      nth_error s 0 <> Some TILDE ->
      ~ isEmpty s ->
      ~ containsWhiteSpace s ->
      ~ containsAsciiControl s ->
      ~ containsOneOf blacklist s ->
      startsWithTilde s = false
      /\ needsQuoting s = false
      /\ shellEscapeArg (VString s) = Return s).
Proof.
  assert (Hfirst : startsWithTilde s = true <-> nth_error s 0 = Some TILDE).
  { rewrite startsWithTilde_iff. unfold beginsWithTilde.
    change (lit "~") with [TILDE]. destruct s as [|c t]; cbn [nth_error app].
    - split; [intros [t H] | intros H]; discriminate H.
    - split; [intros [t' H]; inversion H; reflexivity|].
      intros H. inversion H. now exists t. }
  assert (Hpos : nth_error s 0 = Some TILDE -> needsQuoting s = true).
  { intros H. apply Hfirst in H. unfold needsQuoting. rewrite H.
    now rewrite orb_true_r. }
  assert (Hiff : ~ isEmpty s -> ~ containsWhiteSpace s ->
                 ~ containsAsciiControl s -> ~ containsOneOf blacklist s ->
                 (needsQuoting s = true <-> nth_error s 0 = Some TILDE)).
  { intros He Hw Hc Hb. split; [|exact Hpos].
    intros Hq. apply needsQuoting_triggered in Hq.
    rewrite <- blacklist_shellMetaChars in Hq.
    destruct Hq as [H | [H | [H | [H | H]]]]; try contradiction.
    now apply Hfirst, startsWithTilde_iff. }
  split; [exact Hfirst|]. split; [exact Hpos|].
  split; [intros Hnul Ht; apply shellEscapeArg_quoted; auto|].
  split; [exact Hiff|].
  intros Hnul Ht He Hw Hc Hb.
  assert (Hq : needsQuoting s = false).
  { apply not_true_is_false. intros Hq.
    apply (Hiff He Hw Hc Hb) in Hq. contradiction. }
  split; [|split; [exact Hq | now apply shellEscapeArg_plain]].
  apply not_true_is_false. intros E. now apply Hfirst in E.
Qed.

Lemma tilde_only_leading_witness :
  (needsQuoting (lit "~user") = true
   /\ shellEscapeArg (VString (lit "~user")) = Return (lit "'~user'"))
  /\ (startsWithTilde (lit "a~b") = false
      /\ needsQuoting (lit "a~b") = false
      /\ shellEscapeArg (VString (lit "a~b")) = Return (lit "a~b")).
Proof.
  split.
  - destruct (tilde_only_leading (lit "~user")) as (_ & Hq & Hr & _).
    split.
    + apply Hq. reflexivity.
    + apply Hr; [apply NulFree_includes|]; reflexivity.
  - apply (proj2 (proj2 (proj2 (proj2 (tilde_only_leading (lit "a~b")))))).
    + apply NulFree_includes. reflexivity.
    + discriminate.
    + discriminate.
    + intros H. apply hasUnicodeWhitespace_iff in H. discriminate H.
    + intros H. apply hasAsciiControlChars_iff in H. discriminate H.
    + intros H. rewrite blacklist_shellMetaChars in H.
      apply hasShellMetaChars_iff in H. discriminate H.
Defined.

(** C9 (shape of the literal).  For every input string without U+0000 the
    returned literal either is the input or has at least two code units,
    the first and the last of which are single quotes; and a literal that
    is not the input itself needs quoting. *)
Theorem output_shape (s : jsstring) :
  NulFree s ->
  exists out,
    shellEscapeArg (VString s) = Return out
    /\ (out = s
        \/ ((2 <= List.length out)%nat
            /\ nth_error out 0 = Some QUOTE
            /\ nth_error out (List.length out - 1) = Some QUOTE))
    /\ (out <> s -> needsQuoting out = true).
Proof.
  intros Hnul. destruct (needsQuoting s) eqn:Hq.
  - exists (quotedLiteral s). split; [now apply shellEscapeArg_quoted|].
    split; [right; apply quotedLiteral_ends|].
    intros _. apply (needsQuoting_of_meta QUOTE); [|reflexivity].
    rewrite quotedLiteral_tail. now left.
  - exists s. split; [now apply shellEscapeArg_plain|].
    split; [now left|]. intros H. now contradiction H.
Qed.

Lemma output_shape_witness :
  exists out,
    shellEscapeArg (VString (lit "$HOME")) = Return out
    /\ (out = lit "$HOME"
        \/ ((2 <= List.length out)%nat
            /\ nth_error out 0 = Some QUOTE
            /\ nth_error out (List.length out - 1) = Some QUOTE))
    /\ (out <> lit "$HOME" -> needsQuoting out = true).
Proof.
  apply (output_shape (lit "$HOME")).
  apply NulFree_includes. reflexivity.
Defined.

(** C10 (alphabet of the literal).  For every input string without U+0000,
    every code unit, and every code point, of the returned literal is one
    of the input, a single quote or a backslash; the literal contains no
    U+0000. *)
Theorem output_alphabet (s : jsstring) :
  NulFree s ->
  exists out,
    shellEscapeArg (VString s) = Return out
    /\ (forall c, In c out -> In c s \/ c = QUOTE \/ c = BACKSLASH)
    /\ (forall c, containsCodePoint out c ->
                  containsCodePoint s c \/ c = QUOTE \/ c = BACKSLASH)
    /\ ~ In NUL out
    /\ NulFree out.
Proof.
  intros Hnul. destruct (needsQuoting s) eqn:Hq.
  - exists (quotedLiteral s). split; [now apply shellEscapeArg_quoted|].
    assert (Hcp : forall c, containsCodePoint (quotedLiteral s) c ->
                    containsCodePoint s c \/ c = QUOTE \/ c = BACKSLASH).
    { unfold containsCodePoint. intros c.
      rewrite codePoints_quotedLiteral. apply In_quotedLiteral. }
    assert (Hfree : NulFree (quotedLiteral s)).
    { intros H. apply Hcp in H. destruct H as [H | [H | H]];
        [now apply Hnul | discriminate H | discriminate H]. }
    split; [intros c; apply In_quotedLiteral|].
    split; [exact Hcp|]. split; [|exact Hfree].
    intros H. apply Hfree. unfold containsCodePoint.
    apply codePoints_In_below_surrogates; [lia | exact H].
  - exists s. split; [now apply shellEscapeArg_plain|].
    split; [now left|]. split; [now left|]. split; [|exact Hnul].
    intros H. apply Hnul. unfold containsCodePoint.
    apply codePoints_In_below_surrogates; [lia | exact H].
Qed.

Lemma output_alphabet_witness :
  exists out,
    shellEscapeArg (VString (lit "O'Reilly")) = Return out
    /\ (forall c, In c out ->
                  In c (lit "O'Reilly") \/ c = QUOTE \/ c = BACKSLASH)
    /\ (forall c, containsCodePoint out c ->
                  containsCodePoint (lit "O'Reilly") c
                  \/ c = QUOTE \/ c = BACKSLASH)
    /\ ~ In NUL out
    /\ NulFree out.
Proof.
  apply (output_alphabet (lit "O'Reilly")).
  apply NulFree_includes. reflexivity.
Defined.


(* ================================================================== *)
(** * Further properties of the classification predicates              *)
(* ================================================================== *)
Section Predicates.

Lemma existsb_nth_error (f : Z -> bool) (s : jsstring) :
  existsb f s = true <-> exists i c, nth_error s i = Some c /\ f c = true.
Proof.
  rewrite existsb_exists. split.
  - intros [c [Hin Hc]]. apply In_nth_error in Hin. destruct Hin as [i Hi].
    now exists i, c.
  - intros [i [c [Hi Hc]]]. exists c. split; [|exact Hc].
    now apply nth_error_In with i.
Qed.

Lemma hasUnicodeWhitespace_existsb (s : jsstring) :
  hasUnicodeWhitespace s = existsb isWhiteSpace s.
Proof.
  unfold hasUnicodeWhitespace, regexClassTest.
  apply existsb_codePoints_below_surrogates.
  exact isWhiteSpace_below_surrogates.
Qed.

(** X1.  The index loop of [hasAsciiControlChars] answers true exactly
    when some index of the string holds a char code in 0x01 to 0x1f or the
    code 0x7f; a char code 0 does not count. *)
Theorem hasAsciiControlChars_index (s : jsstring) :
  hasAsciiControlChars s = true
  <-> exists i code,
        charCodeAt s i = Some code
        /\ (0x01 <= code <= 0x1f \/ code = 0x7f).
Proof.
  rewrite hasAsciiControlChars_existsb, existsb_nth_error.
  unfold charCodeAt.
  split; intros [i [c [Hi Hc]]]; exists i, c; split; try assumption;
    now apply isAsciiControl_spec.
Qed.

(** X2.  Although the pattern of [hasUnicodeWhitespace] has the [u] flag
    and so reads code points, the test answers true exactly when some code
    unit of the string is a White_Space character: a surrogate pair never
    counts, and neither half of it does. *)
Theorem hasUnicodeWhitespace_units (s : jsstring) :
  (hasUnicodeWhitespace s = true
   <-> exists i u, charCodeAt s i = Some u /\ isWhiteSpace u = true)
  /\ (forall lead trail,
        isLeadSurrogate lead = true -> isTrailSurrogate trail = true ->
        hasUnicodeWhitespace [lead; trail] = false).
Proof.
  split.
  - rewrite hasUnicodeWhitespace_existsb. apply existsb_nth_error.
  - intros lead trail Hl Ht. rewrite hasUnicodeWhitespace_existsb.
    cbn [existsb].
    assert (H : forall u, 0xD800 <= u -> isWhiteSpace u = false).
    { intros u Hu. destruct (isWhiteSpace u) eqn:E; [|reflexivity].
      apply isWhiteSpace_below_surrogates in E. lia. }
    unfold isLeadSurrogate, isTrailSurrogate in Hl, Ht.
    apply andb_true_iff in Hl, Ht.
    destruct Hl as [Hl _]. destruct Ht as [Ht _].
    apply Z.leb_le in Hl, Ht.
    rewrite !H by lia. reflexivity.
Qed.

Lemma scans_over_concatenation_parts (a b : jsstring) :
  hasUnicodeWhitespace (a ++ b)
  = hasUnicodeWhitespace a || hasUnicodeWhitespace b
  /\ hasAsciiControlChars (a ++ b)
     = hasAsciiControlChars a || hasAsciiControlChars b
  /\ hasShellMetaChars (a ++ b)
     = hasShellMetaChars a || hasShellMetaChars b.
Proof.
  rewrite !hasUnicodeWhitespace_existsb, !hasAsciiControlChars_existsb.
  unfold hasShellMetaChars, regexClassTest.
  rewrite !existsb_app. repeat split.
Qed.

(** X3.  Each of the three scanning predicates holds of a concatenation
    exactly when it holds of one of the two parts, also when the cut falls
    inside a surrogate pair. *)
Theorem scans_over_concatenation (a b : jsstring) :
  hasUnicodeWhitespace (a ++ b)
  = hasUnicodeWhitespace a || hasUnicodeWhitespace b
  /\ hasAsciiControlChars (a ++ b)
     = hasAsciiControlChars a || hasAsciiControlChars b
  /\ hasShellMetaChars (a ++ b)
     = hasShellMetaChars a || hasShellMetaChars b.
Proof. exact (scans_over_concatenation_parts a b). Qed.

Lemma startsWithTilde_app (a b : jsstring) :
  a <> [] -> startsWithTilde (a ++ b) = startsWithTilde a.
Proof. intros Ha. destruct a as [|c a]; [now contradiction Ha | reflexivity]. Qed.

(** X4.  For a nonempty string [a], the string [a ++ b] needs quoting
    exactly when [a] does or [b] holds white space, a control character or
    a blacklisted character: a tilde in front of [b], and [b] being empty,
    no longer count.  So no extension of a nonempty string that needs
    quoting escapes quoting. *)
Theorem needsQuoting_extension (a b : jsstring) :
  a <> [] ->
  needsQuoting (a ++ b)
  = needsQuoting a
    || (hasUnicodeWhitespace b || hasAsciiControlChars b
        || hasShellMetaChars b)
  /\ (needsQuoting a = true -> needsQuoting (a ++ b) = true).
Proof.
  intros Ha.
  assert (E : needsQuoting (a ++ b)
              = needsQuoting a
                || (hasUnicodeWhitespace b || hasAsciiControlChars b
                    || hasShellMetaChars b)).
  { unfold needsQuoting.
    destruct (scans_over_concatenation_parts a b) as (Hw & Hc & Hm).
    rewrite Hw, Hc, Hm, startsWithTilde_app by assumption.
    destruct a as [|c a]; [now contradiction Ha|]. cbn [List.length app Nat.eqb].
    destruct (startsWithTilde (c :: a)), (hasUnicodeWhitespace (c :: a)),
      (hasAsciiControlChars (c :: a)), (hasShellMetaChars (c :: a)),
      (hasUnicodeWhitespace b), (hasAsciiControlChars b),
      (hasShellMetaChars b); reflexivity. }
  split; [exact E|]. intros H. now rewrite E, H.
Qed.

Lemma needsQuoting_extension_witness :
  needsQuoting (lit "~a" ++ lit "bc")
  = needsQuoting (lit "~a")
    || (hasUnicodeWhitespace (lit "bc") || hasAsciiControlChars (lit "bc")
        || hasShellMetaChars (lit "bc"))
  /\ (needsQuoting (lit "~a") = true ->
      needsQuoting (lit "~a" ++ lit "bc") = true).
Proof.
  apply (needsQuoting_extension (lit "~a") (lit "bc")). discriminate.
Defined.

End Predicates.

(* ================================================================== *)
(** * Further properties of the literal                                *)
(* ================================================================== *)
Section Literals.

Lemma shellEscapeArg_literal (s : jsstring) :
  NulFree s ->
  shellEscapeArg (VString s)
  = Return (if needsQuoting s then quotedLiteral s else s).
Proof.
  intros Hnul. destruct (needsQuoting s) eqn:Hq.
  - now apply shellEscapeArg_quoted.
  - now apply shellEscapeArg_plain.
Qed.

Lemma shellEscapeArg_Return_inv (s out : jsstring) :
  shellEscapeArg (VString s) = Return out ->
  NulFree s /\ out = if needsQuoting s then quotedLiteral s else s.
Proof.
  intros H. assert (Hnul : NulFree s).
  { apply NulFree_includes. rewrite shellEscapeArg_string in H.
    destruct (includes s [NUL]); [discriminate H | reflexivity]. }
  split; [exact Hnul|].
  rewrite (shellEscapeArg_literal s Hnul) in H. now inversion H.
Qed.

Lemma shellEscapeArg_value_inv (v : value) (out : jsstring) :
  shellEscapeArg v = Return out ->
  exists s, v = VString s /\ NulFree s
            /\ out = if needsQuoting s then quotedLiteral s else s.
Proof.
  intros H. destruct v as [| | b | n | s |]; try discriminate H.
  exists s. split; [reflexivity|]. now apply shellEscapeArg_Return_inv.
Qed.

Lemma literal_parseWord (s : jsstring) :
  Posix.parseWord (if needsQuoting s then quotedLiteral s else s) = Some s.
Proof.
  destruct (needsQuoting s) eqn:Hq.
  - apply parseWord_quotedLiteral.
  - apply unquote_plain;
      apply (not_needsQuoting_no_meta _ s Hq); reflexivity.
Qed.

Lemma quotedTail_length (s : jsstring) :
  List.length (quotedTail s) = (List.length s + 1 + 3 * countQuotes s)%nat.
Proof.
  induction s as [|c t IH]; [reflexivity|].
  destruct (Z.eq_dec c QUOTE) as [-> | Hc].
  - rewrite quotedTail_quote, countQuotes_quote. cbn [List.length]. lia.
  - rewrite quotedTail_other, countQuotes_other by assumption.
    cbn [List.length]. lia.
Qed.

Lemma quotedLiteral_length (s : jsstring) :
  List.length (quotedLiteral s)
  = (List.length s + 2 + 3 * countQuotes s)%nat.
Proof.
  rewrite quotedLiteral_tail. cbn [List.length]. rewrite quotedTail_length.
  lia.
Qed.

Lemma quotedLiteral_NulFree (s : jsstring) :
  NulFree s -> NulFree (quotedLiteral s).
Proof.
  intros Hnul H. unfold containsCodePoint in H.
  rewrite codePoints_quotedLiteral in H. apply In_quotedLiteral in H.
  destruct H as [H | [H | H]];
    [now apply Hnul | discriminate H | discriminate H].
Qed.

Lemma literal_NulFree (s : jsstring) :
  NulFree s -> NulFree (if needsQuoting s then quotedLiteral s else s).
Proof.
  intros H. destruct (needsQuoting s); [now apply quotedLiteral_NulFree|exact H].
Qed.

Lemma quotedLiteral_needsQuoting (s : jsstring) :
  needsQuoting (quotedLiteral s) = true.
Proof.
  apply (needsQuoting_of_meta QUOTE); [|reflexivity].
  rewrite quotedLiteral_tail. now left.
Qed.

(** X5.  [shellEscapeArg] is injective: two arguments for which it returns
    the same literal are the same value. *)
Theorem shellEscapeArg_injective (v1 v2 : value) (out : jsstring) :
  shellEscapeArg v1 = Return out ->
  shellEscapeArg v2 = Return out ->
  v1 = v2.
Proof.
  intros H1 H2.
  apply shellEscapeArg_value_inv in H1, H2.
  destruct H1 as (s1 & -> & _ & E1). destruct H2 as (s2 & -> & _ & E2).
  pose proof (literal_parseWord s1) as P1.
  pose proof (literal_parseWord s2) as P2.
  rewrite <- E1 in P1. rewrite <- E2 in P2. congruence.
Qed.

Lemma shellEscapeArg_injective_witness :
  VString (lit "a b") = VString (lit "a b").
Proof.
  apply (shellEscapeArg_injective (VString (lit "a b")) (VString (lit "a b"))
           (lit "'a b'")); reflexivity.
Defined.

(** X6.  For every string without U+0000, the returned literal has the
    length of the input when no quoting is needed and otherwise that
    length plus 2 plus 3 for each single quote of the input; it is never
    empty, and it is the input itself exactly when no quoting is needed. *)
Theorem literal_length (s : jsstring) :
  NulFree s ->
  exists out,
    shellEscapeArg (VString s) = Return out
    /\ List.length out
       = (if needsQuoting s
          then List.length s + 2 + 3 * countQuotes s
          else List.length s)%nat
    /\ (1 <= List.length out)%nat
    /\ (out = s <-> needsQuoting s = false).
Proof.
  intros Hnul. rewrite (shellEscapeArg_literal s Hnul).
  eexists. split; [reflexivity|].
  destruct (needsQuoting s) eqn:Hq.
  - rewrite quotedLiteral_length. split; [reflexivity|]. split; [lia|].
    split; [|discriminate]. intros E.
    pose proof (quotedLiteral_longer s) as Hl. rewrite E in Hl. lia.
  - split; [reflexivity|]. split; [|tauto].
    destruct (not_needsQuoting_chars s Hq) as (He & _).
    destruct s; [now contradiction He | cbn [List.length]; lia].
Qed.

Lemma literal_length_witness :
  exists out,
    shellEscapeArg (VString (lit "a'b'c")) = Return out
    /\ List.length out
       = (if needsQuoting (lit "a'b'c")
          then List.length (lit "a'b'c") + 2 + 3 * countQuotes (lit "a'b'c")
          else List.length (lit "a'b'c"))%nat
    /\ (1 <= List.length out)%nat
    /\ (out = lit "a'b'c" <-> needsQuoting (lit "a'b'c") = false).
Proof.
  apply (literal_length (lit "a'b'c")).
  apply NulFree_includes. reflexivity.
Defined.

(** X7.  The literal of a string without U+0000 can itself be given to
    [shellEscapeArg]: the second literal reads back as the first and the
    first as the input.  Formatting twice gives the same as formatting
    once exactly when the input needs no quoting. *)
Theorem formatting_twice (s : jsstring) :
  NulFree s ->
  exists once twice,
    shellEscapeArg (VString s) = Return once
    /\ shellEscapeArg (VString once) = Return twice
    /\ Posix.parseWord twice = Some once
    /\ Posix.parseWord once = Some s
    /\ (twice = once <-> needsQuoting s = false).
Proof.
  intros Hnul.
  exists (if needsQuoting s then quotedLiteral s else s).
  eexists. split; [now apply shellEscapeArg_literal|].
  split; [apply shellEscapeArg_literal; now apply literal_NulFree|].
  split; [apply literal_parseWord|]. split; [apply literal_parseWord|].
  destruct (needsQuoting s) eqn:Hq.
  - rewrite quotedLiteral_needsQuoting. split; [|discriminate]. intros E.
    pose proof (quotedLiteral_longer (quotedLiteral s)) as Hl.
    rewrite E in Hl. lia.
  - rewrite Hq. tauto.
Qed.

Lemma formatting_twice_witness :
  exists once twice,
    shellEscapeArg (VString (lit "O'Reilly")) = Return once
    /\ shellEscapeArg (VString once) = Return twice
    /\ Posix.parseWord twice = Some once
    /\ Posix.parseWord once = Some (lit "O'Reilly")
    /\ (twice = once <-> needsQuoting (lit "O'Reilly") = false).
Proof.
  apply (formatting_twice (lit "O'Reilly")).
  apply NulFree_includes. reflexivity.
Defined.

End Literals.

(* ================================================================== *)
(** * Literals side by side                                            *)
(* ================================================================== *)
Section Composition.

Lemma option_map_cons_app (c : Z) (t : jsstring) (x : option jsstring) :
  option_map (cons c) (option_map (app t) x) = option_map (app (c :: t)) x.
Proof. destruct x; reflexivity. Qed.

Lemma unquote_plain_app (s r : jsstring) :
  ~ In QUOTE s -> ~ In BACKSLASH s ->
  Posix.unquote Posix.Unquoted (s ++ r)
  = option_map (app s) (Posix.unquote Posix.Unquoted r).
Proof.
  induction s as [|c t IH]; intros Hq Hb.
  - cbn [app]. destruct (Posix.unquote Posix.Unquoted r); reflexivity.
  - cbn [app]. rewrite unquote_unquoted_other.
    + rewrite IH, option_map_cons_app; [reflexivity | |];
        intros H; [apply Hq | apply Hb]; now right.
    + intros ->. apply Hq. now left.
    + intros ->. apply Hb. now left.
Qed.

Lemma unquote_quotedTail_app (s r : jsstring) :
  Posix.unquote Posix.SingleQuoted (quotedTail s ++ r)
  = option_map (app s) (Posix.unquote Posix.Unquoted r).
Proof.
  induction s as [|c t IH].
  - rewrite quotedTail_nil.
    change (Posix.unquote Posix.SingleQuoted ([QUOTE] ++ r))
      with (Posix.unquote Posix.Unquoted r).
    destruct (Posix.unquote Posix.Unquoted r); reflexivity.
  - destruct (Z.eq_dec c QUOTE) as [-> | Hc].
    + rewrite quotedTail_quote.
      change (Posix.unquote Posix.SingleQuoted
                ((QUOTE :: BACKSLASH :: QUOTE :: QUOTE :: quotedTail t) ++ r))
        with (option_map (cons QUOTE)
                (Posix.unquote Posix.SingleQuoted (quotedTail t ++ r))).
      now rewrite IH, option_map_cons_app.
    + rewrite quotedTail_other by assumption. cbn [app].
      rewrite unquote_single_other by assumption.
      now rewrite IH, option_map_cons_app.
Qed.

(** Quote removal on a literal followed by more text. *)
Lemma unquote_literal_app (s r : jsstring) :
  Posix.unquote Posix.Unquoted
    ((if needsQuoting s then quotedLiteral s else s) ++ r)
  = option_map (app s) (Posix.unquote Posix.Unquoted r).
Proof.
  destruct (needsQuoting s) eqn:Hq.
  - rewrite quotedLiteral_tail.
    change (Posix.unquote Posix.Unquoted ((QUOTE :: quotedTail s) ++ r))
      with (Posix.unquote Posix.SingleQuoted (quotedTail s ++ r)).
    apply unquote_quotedTail_app.
  - apply unquote_plain_app;
      apply (not_needsQuoting_no_meta _ s Hq); reflexivity.
Qed.

Lemma fold_pushChar (s f : jsstring) (fs : list jsstring) :
  fold_right Posix.pushChar (Some (f :: fs)) s = Some ((s ++ f) :: fs).
Proof.
  induction s as [|c t IH]; [reflexivity|].
  cbn [fold_right app]. now rewrite IH.
Qed.

Lemma fieldsFrom_plain_app (s r : jsstring) :
  (forall c, In c s -> isWhiteSpace c = false /\ isShellMetaChar c = false) ->
  Posix.fieldsFrom Posix.Unquoted true (s ++ r)
  = fold_right Posix.pushChar (Posix.fieldsFrom Posix.Unquoted true r) s.
Proof.
  induction s as [|c t IH]; intros H; [reflexivity|].
  destruct (H c (or_introl eq_refl)) as [Hw Hm].
  cbn [app fold_right].
  rewrite fieldsFrom_unquoted_plain, andb_false_r by assumption.
  rewrite IH; [reflexivity|]. intros x Hx. apply H. now right.
Qed.

Lemma fieldsFrom_quotedTail_app (s r : jsstring) :
  Posix.fieldsFrom Posix.SingleQuoted true (quotedTail s ++ r)
  = fold_right Posix.pushChar (Posix.fieldsFrom Posix.Unquoted true r) s.
Proof.
  induction s as [|c t IH]; [reflexivity|].
  destruct (Z.eq_dec c QUOTE) as [-> | Hc].
  - rewrite quotedTail_quote.
    change (Posix.fieldsFrom Posix.SingleQuoted true
              ((QUOTE :: BACKSLASH :: QUOTE :: QUOTE :: quotedTail t) ++ r))
      with (Posix.pushChar QUOTE
              (Posix.fieldsFrom Posix.SingleQuoted true (quotedTail t ++ r))).
    now rewrite IH.
  - rewrite quotedTail_other by assumption. cbn [app fold_right].
    rewrite fieldsFrom_single_other by assumption.
    now rewrite IH.
Qed.

(** Field splitting on a literal followed by more text: the literal gives
    its input to the word that the text goes on with. *)
Lemma fieldsFrom_literal_app (b : bool) (s r : jsstring) :
  Posix.fieldsFrom Posix.Unquoted b
    ((if needsQuoting s then quotedLiteral s else s) ++ r)
  = fold_right Posix.pushChar (Posix.fieldsFrom Posix.Unquoted true r) s.
Proof.
  destruct (needsQuoting s) eqn:Hq.
  - rewrite quotedLiteral_tail.
    change (Posix.fieldsFrom Posix.Unquoted b ((QUOTE :: quotedTail s) ++ r))
      with (Posix.fieldsFrom Posix.SingleQuoted true (quotedTail s ++ r)).
    apply fieldsFrom_quotedTail_app.
  - destruct (not_needsQuoting_chars s Hq) as (He & Ht & Hc).
    destruct s as [|c t]; [now contradiction He|].
    destruct (Hc c (or_introl eq_refl)) as [Hw Hm].
    cbn [app fold_right].
    rewrite fieldsFrom_unquoted_plain by assumption.
    unfold startsWithTilde, startsWith in Ht.
    change (lit "~") with [TILDE] in Ht.
    rewrite isPrefix_cons, andb_true_r, Z.eqb_sym in Ht.
    rewrite Ht. cbn [andb].
    rewrite fieldsFrom_plain_app; [reflexivity|].
    intros x Hx. apply Hc. now right.
Qed.

Lemma fieldsFrom_literal_alone (b : bool) (s : jsstring) :
  Posix.fieldsFrom Posix.Unquoted b
    (if needsQuoting s then quotedLiteral s else s)
  = Some [s].
Proof.
  pose proof (fieldsFrom_literal_app b s []) as E.
  destruct (needsQuoting s); rewrite app_nil_r in E; rewrite E;
    cbn [Posix.fieldsFrom]; now rewrite fold_pushChar, app_nil_r.
Qed.

Lemma fieldsFrom_blank (b : bool) (r : jsstring) :
  Posix.fieldsFrom Posix.Unquoted b (lit " " ++ r)
  = option_map (fun fs => if b then [] :: fs else fs)
               (Posix.fieldsFrom Posix.Unquoted false r).
Proof. reflexivity. Qed.

(** X8.  Two literals written one after the other, with nothing between
    them, are the literal of the concatenation as far as the shell is
    concerned: together they read back as one argument, the first input
    followed by the second. *)
Theorem adjacent_literals (a b : jsstring) :
  NulFree a -> NulFree b ->
  exists la lb,
    shellEscapeArg (VString a) = Return la
    /\ shellEscapeArg (VString b) = Return lb
    /\ Posix.parseWord (la ++ lb) = Some (a ++ b)
    /\ Posix.fields (la ++ lb) = Some [a ++ b].
Proof.
  intros Ha Hb.
  exists (if needsQuoting a then quotedLiteral a else a),
         (if needsQuoting b then quotedLiteral b else b).
  split; [now apply shellEscapeArg_literal|].
  split; [now apply shellEscapeArg_literal|]. split.
  - unfold Posix.parseWord. rewrite unquote_literal_app.
    fold (Posix.parseWord (if needsQuoting b then quotedLiteral b else b)).
    now rewrite literal_parseWord.
  - unfold Posix.fields. rewrite fieldsFrom_literal_app.
    rewrite (fieldsFrom_literal_alone true b).
    now rewrite fold_pushChar.
Qed.

Lemma adjacent_literals_witness :
  exists la lb,
    shellEscapeArg (VString (lit "--name=")) = Return la
    /\ shellEscapeArg (VString (lit "O'Reilly & Co")) = Return lb
    /\ Posix.parseWord (la ++ lb) = Some (lit "--name=" ++ lit "O'Reilly & Co")
    /\ Posix.fields (la ++ lb) = Some [lit "--name=" ++ lit "O'Reilly & Co"].
Proof.
  apply (adjacent_literals (lit "--name=") (lit "O'Reilly & Co"));
    apply NulFree_includes; reflexivity.
Defined.

Lemma arrayMap_literals (ss : list jsstring) :
  Forall NulFree ss ->
  Readme.arrayMap shellEscapeArg (map VString ss)
  = Return (map (fun s => if needsQuoting s then quotedLiteral s else s) ss).
Proof.
  induction 1 as [|s ss Hs Hss IH]; [reflexivity|].
  cbn [map Readme.arrayMap].
  now rewrite (shellEscapeArg_literal s Hs), IH.
Qed.

Lemma fields_join_literals (ss : list jsstring) :
  Posix.fields
    (Readme.join (lit " ")
       (map (fun s => if needsQuoting s then quotedLiteral s else s) ss))
  = Some ss.
Proof.
  unfold Posix.fields.
  induction ss as [|s rest IH]; [reflexivity|].
  destruct rest as [|s2 rest].
  - cbn [map Readme.join]. apply fieldsFrom_literal_alone.
  - change (Readme.join (lit " ")
              (map (fun s => if needsQuoting s then quotedLiteral s else s)
                   (s :: s2 :: rest)))
      with ((if needsQuoting s then quotedLiteral s else s)
              ++ lit " "
              ++ Readme.join (lit " ")
                   (map (fun s => if needsQuoting s then quotedLiteral s
                                  else s) (s2 :: rest))).
    rewrite fieldsFrom_literal_app, fieldsFrom_blank, IH.
    cbn [option_map]. now rewrite fold_pushChar, app_nil_r.
Qed.

(** X9.  [logCommand] on arguments without U+0000 logs a line made of the
    text [Would run: ], the program, a space and the formatted arguments.
    Split into arguments, the formatted part gives back the list of
    arguments, whatever they hold (also none, and also empty ones); with a
    program name that needs no quoting, the command after the text gives
    the program followed by the arguments. *)
Theorem logCommand_reads_back (program : jsstring) (args : list jsstring) :
  Forall NulFree args ->
  exists formatted,
    Readme.formatted (map VString args) = Return formatted
    /\ Readme.logCommand program (map VString args)
       = Return (lit "Would run: " ++ program ++ lit " " ++ formatted)
    /\ Posix.fields formatted = Some args
    /\ (needsQuoting program = false ->
        Posix.fields (program ++ lit " " ++ formatted)
        = Some (program :: args)).
Proof.
  intros Hargs.
  exists (Readme.join (lit " ")
            (map (fun s => if needsQuoting s then quotedLiteral s else s)
                 args)).
  assert (Hf : Readme.formatted (map VString args)
               = Return (Readme.join (lit " ")
                           (map (fun s => if needsQuoting s
                                          then quotedLiteral s else s) args))).
  { unfold Readme.formatted. now rewrite arrayMap_literals. }
  split; [exact Hf|]. split; [unfold Readme.logCommand; now rewrite Hf|].
  split; [apply fields_join_literals|].
  intros Hp. unfold Posix.fields.
  pose proof (fieldsFrom_literal_app false program) as E.
  rewrite Hp in E. rewrite E, fieldsFrom_blank.
  fold (Posix.fields
          (Readme.join (lit " ")
             (map (fun s => if needsQuoting s then quotedLiteral s else s)
                  args))).
  rewrite fields_join_literals. cbn [option_map].
  now rewrite fold_pushChar, app_nil_r.
Qed.

Lemma logCommand_reads_back_witness :
  exists formatted,
    Readme.formatted
      (map VString [lit "-r"; lit "hello world"; lit ""; lit "*.txt"])
    = Return formatted
    /\ Readme.logCommand (lit "grep")
         (map VString [lit "-r"; lit "hello world"; lit ""; lit "*.txt"])
       = Return (lit "Would run: " ++ lit "grep" ++ lit " " ++ formatted)
    /\ Posix.fields formatted
       = Some [lit "-r"; lit "hello world"; lit ""; lit "*.txt"]
    /\ (needsQuoting (lit "grep") = false ->
        Posix.fields (lit "grep" ++ lit " " ++ formatted)
        = Some [lit "grep"; lit "-r"; lit "hello world"; lit ""; lit "*.txt"]).
Proof.
  apply (logCommand_reads_back (lit "grep")
           [lit "-r"; lit "hello world"; lit ""; lit "*.txt"]).
  repeat (apply Forall_cons; [apply NulFree_includes; reflexivity|]).
  apply Forall_nil.
Defined.

(** X10.  [logCommand] logs nothing when an argument is refused: the call
    throws the error of the first argument that [shellEscapeArg] refuses,
    whatever comes after it. *)
Theorem logCommand_first_error
  (program : jsstring) (before after : list value) (v : value)
  (cls : ErrorClass) (m : string) :
  (forall a, In a before -> exists out, shellEscapeArg a = Return out) ->
  shellEscapeArg v = Throw cls m ->
  Readme.logCommand program (before ++ v :: after) = Throw cls m
  /\ forall line,
       Readme.logCommand program (before ++ v :: after) <> Return line.
Proof.
  intros Hb Hv.
  assert (E : Readme.arrayMap shellEscapeArg (before ++ v :: after)
              = Throw cls m).
  { induction before as [|a before IH]; cbn [app Readme.arrayMap].
    - now rewrite Hv.
    - destruct (Hb a (or_introl eq_refl)) as [out Ha]. rewrite Ha.
      rewrite IH; [reflexivity|]. intros x Hx. apply Hb. now right. }
  unfold Readme.logCommand, Readme.formatted. rewrite E.
  split; [reflexivity | discriminate].
Qed.

Lemma logCommand_first_error_witness :
  Readme.logCommand (lit "grep")
    ([VString (lit "-r")] ++ VString [0x61; 0x00] :: [VNull])
  = Throw Error "escape: arg must not include NUL (\u0000)"
  /\ forall line,
       Readme.logCommand (lit "grep")
         ([VString (lit "-r")] ++ VString [0x61; 0x00] :: [VNull])
       <> Return line.
Proof.
  apply (logCommand_first_error (lit "grep") [VString (lit "-r")] [VNull]
           (VString [0x61; 0x00]) Error
           "escape: arg must not include NUL (\u0000)").
  - intros a [<- | []]. eexists. reflexivity.
  - reflexivity.
Defined.

End Composition.

(* ================================================================== *)
(** * Strings that pass unchanged, and the three outcomes              *)
(* ================================================================== *)
Section Unchanged.

Lemma existsb_all_false (f : Z -> bool) (s : jsstring) :
  (forall c, In c s -> f c = false) -> existsb f s = false.
Proof.
  intros H. destruct (existsb f s) eqn:E; [|reflexivity].
  apply existsb_exists in E. destruct E as [c [Hin Hc]].
  rewrite (H c Hin) in Hc. discriminate Hc.
Qed.

(** A nonempty string that does not open with a tilde and whose code units
    are outside every class is returned as it is. *)
Lemma harmless_units_pass (s : jsstring) :
  s <> [] ->
  nth_error s 0 <> Some TILDE ->
  (forall c, In c s ->
             c <> NUL /\ isWhiteSpace c = false
             /\ isAsciiControl c = false /\ isShellMetaChar c = false) ->
  shellEscapeArg (VString s) = Return s.
Proof.
  intros He Ht H. apply shellEscapeArg_plain.
  - apply NulFree_includes. rewrite includes_single.
    apply existsb_all_false. intros c Hc. apply Z.eqb_neq.
    intros E. now apply (H c Hc).
  - unfold needsQuoting.
    rewrite hasUnicodeWhitespace_existsb, hasAsciiControlChars_existsb.
    unfold hasShellMetaChars, regexClassTest.
    rewrite !existsb_all_false by (intros c Hc; now apply (H c Hc)).
    destruct s as [|c t]; [now contradiction He|].
    unfold startsWithTilde, startsWith. change (lit "~") with [TILDE].
    rewrite isPrefix_cons, andb_true_r.
    destruct (Z.eqb_spec TILDE c) as [<- | Hne]; [now contradiction Ht|].
    reflexivity.
Qed.

Lemma unit_outside_classes (c : Z) :
  (0x30 <= c <= 0x39 \/ 0x41 <= c <= 0x5A \/ 0x61 <= c <= 0x7A
   \/ c = 0x2D \/ c = 0x5F \/ c = 0x2E \/ c = 0x2F \/ c = 0x3A
   \/ c = 0x40 \/ c = 0x2C \/ c = 0x2B \/ c = 0x3D \/ c = 0x25
   \/ 0x3000 < c) ->
  c <> TILDE
  /\ c <> NUL /\ isWhiteSpace c = false
  /\ isAsciiControl c = false /\ isShellMetaChar c = false.
Proof.
  intros H. unfold TILDE, NUL. split; [lia|]. split; [lia|]. split; [|split].
  - destruct (isWhiteSpace c) eqn:E; [exfalso | reflexivity].
    revert E. unfold isWhiteSpace.
    rewrite !orb_true_iff, !andb_true_iff, !Z.leb_le, !Z.eqb_eq. lia.
  - destruct (isAsciiControl c) eqn:E; [exfalso | reflexivity].
    apply isAsciiControl_spec in E. lia.
  - destruct (isShellMetaChar c) eqn:E; [exfalso | reflexivity].
    apply isShellMetaChar_In in E. unfold shellMetaChars in E.
    simpl In in E. lia.
Qed.

Lemma isPlainAscii_cases (c : Z) :
  Alphabet.isPlainAscii c = true ->
  0x30 <= c <= 0x39 \/ 0x41 <= c <= 0x5A \/ 0x61 <= c <= 0x7A
  \/ c = 0x2D \/ c = 0x5F \/ c = 0x2E \/ c = 0x2F \/ c = 0x3A
  \/ c = 0x40 \/ c = 0x2C \/ c = 0x2B \/ c = 0x3D \/ c = 0x25
  \/ 0x3000 < c.
Proof.
  unfold Alphabet.isPlainAscii, Alphabet.isAlnum.
  rewrite !orb_true_iff, !andb_true_iff, !Z.leb_le, existsb_eqb_In.
  unfold Alphabet.plainPunctuation. simpl In. lia.
Qed.

(** X11.  Every nonempty string made of ASCII letters, digits and the
    punctuation - _ . / : @ , + = % is returned unchanged, wherever these
    characters stand (a dash in front included). *)
Theorem plain_ascii_unchanged (s : jsstring) :
  s <> [] ->
  (forall c, In c s -> Alphabet.isPlainAscii c = true) ->
  needsQuoting s = false /\ shellEscapeArg (VString s) = Return s.
Proof.
  intros He H.
  assert (Hu : forall c, In c s ->
                 c <> TILDE /\ c <> NUL /\ isWhiteSpace c = false
                 /\ isAsciiControl c = false /\ isShellMetaChar c = false).
  { intros c Hc. apply unit_outside_classes, isPlainAscii_cases, H, Hc. }
  assert (Hr : shellEscapeArg (VString s) = Return s).
  { apply harmless_units_pass; [exact He | | intros c Hc; now apply Hu].
    destruct s as [|c t]; [now contradiction He|]. cbn [nth_error].
    intros E. inversion E. subst c.
    destruct (Hu TILDE (or_introl eq_refl)) as [Hx _]. now apply Hx. }
  split; [|exact Hr].
  apply shellEscapeArg_Return_inv in Hr. destruct Hr as [_ Hr].
  destruct (needsQuoting s); [|reflexivity].
  pose proof (quotedLiteral_longer s) as Hl. rewrite <- Hr in Hl. lia.
Qed.

Lemma plain_ascii_unchanged_witness :
  needsQuoting (lit "--dry-run=./a_b/c.d:e@f,g+h%i") = false
  /\ shellEscapeArg (VString (lit "--dry-run=./a_b/c.d:e@f,g+h%i"))
     = Return (lit "--dry-run=./a_b/c.d:e@f,g+h%i").
Proof.
  apply (plain_ascii_unchanged (lit "--dry-run=./a_b/c.d:e@f,g+h%i")).
  - discriminate.
  - intros c Hc. simpl in Hc.
    repeat (destruct Hc as [<- | Hc]; [reflexivity|]). contradiction.
Defined.

(** X12.  Every nonempty string whose code units are all above U+3000 is
    returned unchanged: text in CJK scripts, and characters outside the
    basic plane, which are pairs of surrogates. *)
Theorem high_units_unchanged (s : jsstring) :
  s <> [] ->
  (forall c, In c s -> 0x3000 < c) ->
  needsQuoting s = false /\ shellEscapeArg (VString s) = Return s.
Proof.
  intros He H.
  assert (Hu : forall c, In c s ->
                 c <> TILDE /\ c <> NUL /\ isWhiteSpace c = false
                 /\ isAsciiControl c = false /\ isShellMetaChar c = false).
  { intros c Hc. apply unit_outside_classes.
    do 13 right. now apply H. }
  assert (Hr : shellEscapeArg (VString s) = Return s).
  { apply harmless_units_pass; [exact He | | intros c Hc; now apply Hu].
    destruct s as [|c t]; [now contradiction He|]. cbn [nth_error].
    intros E. inversion E. subst c.
    destruct (Hu TILDE (or_introl eq_refl)) as [Hx _]. now apply Hx. }
  split; [|exact Hr].
  apply shellEscapeArg_Return_inv in Hr. destruct Hr as [_ Hr].
  destruct (needsQuoting s); [|reflexivity].
  pose proof (quotedLiteral_longer s) as Hl. rewrite <- Hr in Hl. lia.
Qed.

Lemma high_units_unchanged_witness :
  needsQuoting [0x65E5; 0x672C; 0x8A9E; 0xD83D; 0xDC4D] = false
  /\ shellEscapeArg (VString [0x65E5; 0x672C; 0x8A9E; 0xD83D; 0xDC4D])
     = Return [0x65E5; 0x672C; 0x8A9E; 0xD83D; 0xDC4D].
Proof.
  apply (high_units_unchanged [0x65E5; 0x672C; 0x8A9E; 0xD83D; 0xDC4D]).
  - discriminate.
  - intros c Hc. simpl in Hc.
    repeat (destruct Hc as [<- | Hc]; [reflexivity|]). contradiction.
Defined.

(** X13.  The three outcomes of a call: a [TypeError] exactly when the
    argument is not a string, whatever else it is; an [Error] exactly when
    it is a string that holds a code unit 0; a literal exactly when it is
    a string that holds none. *)
Theorem three_outcomes (v : value) :
  ((exists m, shellEscapeArg v = Throw TypeError m)
   <-> forall s, v <> VString s)
  /\ ((exists m, shellEscapeArg v = Throw Error m)
      <-> exists s, v = VString s /\ In NUL s)
  /\ ((exists out, shellEscapeArg v = Return out)
      <-> exists s, v = VString s /\ ~ In NUL s).
Proof.
  destruct v as [| | b | n | s |];
    try (split; [split; [intros _ s; discriminate | intros _; eexists; reflexivity]|];
         split; (split; [intros [x H]; discriminate H
                        | intros [s [H _]]; discriminate H])).
  rewrite shellEscapeArg_string.
  pose proof (includes_single_In NUL s) as Hin.
  destruct (includes s [NUL]) eqn:E.
  - split; [split; [intros [m H]; discriminate H
                   | intros H; now contradiction (H s)]|].
    split.
    + split; [intros _; exists s; split; [reflexivity | now apply Hin]
             | intros _; eexists; reflexivity].
    + split; [intros [out H]; discriminate H|].
      intros [s' [Hs Hn]]. inversion Hs. subst s'.
      exfalso. apply Hn. now apply Hin.
  - assert (Hn : ~ In NUL s).
    { intros H. apply Hin in H. discriminate H. }
    split; [split; [intros [m H]; destruct (negb (needsQuoting s));
                    discriminate H
                   | intros H; now contradiction (H s)]|].
    split.
    + split; [intros [m H]; destruct (negb (needsQuoting s)); discriminate H|].
      intros [s' [Hs Hi]]. inversion Hs. subst s'. contradiction.
    + split; [intros _; now exists s|].
      intros _. destruct (negb (needsQuoting s)); eexists; reflexivity.
Qed.

End Unchanged.

Lemma hasUnicodeWhitespace_units_witness :
  hasUnicodeWhitespace [0xD83D; 0xDC4D] = false.
Proof.
  apply (proj2 (hasUnicodeWhitespace_units []) 0xD83D 0xDC4D); reflexivity.
Defined.
